(** * glyphs2ufo: the casting module (Lib/glyphs2ufo/casting.py)

    A shallow embedding of [casting.py] and proofs of the properties its
    specification states.

    Conventions of the embedding.
    - Python values are the inductive type [value]; a dict is an association
      list in insertion order whose keys are strings (the parser's property
      tree has only string keys), written and read with [dict_set] and
      [dict_get], which behave as Python's [d[k] = v] and [d[k]].
    - The raw tree is a tree: no mutable object is reachable along two paths.
      In-place mutation [data[key] = v] is therefore the functional update of
      the enclosing value, and a function that mutates its argument returns
      the mutated argument.
    - A raised exception is [Err e]; nothing in the module catches one except
      the [KeyError] of the defaults lookup.
    - Builtins follow CPython 3 (3.6 or later): [map] is lazy, [int] and
      [float] accept single underscores between digits, [assert] is enabled.
      Strings are sequences of ASCII characters, and [int] reads a literal
      of any length.  Outside ASCII the class [\d] of a pattern and the
      builtins [int] and [float] accept the other decimal digits and blanks
      of Unicode as well, which [is_digit] and [is_space] leave out;
      [ascii_string] marks where a statement about the patterns needs the
      restriction.
    - A [float] is an IEEE 754 binary64 number, [spec_float] of the standard
      library with precision 53 and maximal exponent 1024. *)

From Stdlib Require Import ZArith List Bool Ascii String Lia.
From Stdlib Require Import Floats.SpecFloat.
From Stdlib Require Import Sorting.Permutation.
Import ListNotations.

Set Warnings "-register-all".
Local Open Scope string_scope.
Local Open Scope Z_scope.

(** ** Exceptions and results *)

Inductive exc : Type :=
| ValueError
| TypeError
| KeyError
| AttributeError
| AssertionError
| OverflowError.

Inductive result (A : Type) : Type :=
| Ok (a : A)
| Err (e : exc).

Arguments Ok {A} a.
Arguments Err {A} e.

Definition bind {A B : Type} (r : result A) (k : A -> result B) : result B :=
  match r with
  | Ok a => k a
  | Err e => Err e
  end.

Notation "x <- r ;; k" := (bind r (fun x => k))
  (at level 61, r at next level, right associativity).

Definition fails {A : Type} (r : result A) : Prop := exists e, r = Err e.

(** [mapM f l] runs [f] on the elements of [l] from left to right and stops
    at the first exception. *)
Fixpoint mapM {A B : Type} (f : A -> result B) (l : list A) : result (list B) :=
  match l with
  | [] => Ok []
  | a :: l' => b <- f a ;; bs <- mapM f l' ;; Ok (b :: bs)
  end.

(** ** Python values *)

(** The functions the module passes to [map]. *)
Inductive mapfn : Type :=
| MapInt
| MapPoint
| MapNode.

Inductive value : Type :=
| PNone
| PBool (b : bool)
| PInt (z : Z)
| PFloat (f : spec_float)
| PStr (s : string)
| PList (l : list value)
| PDict (d : list (string * value))
| PDatetime (year month day hour minute second : Z)
| PMap (f : mapfn) (src : value).  (* the iterator [map(f, src)]; [src] is what is still to be read *)

(** ** Dicts in insertion order *)

Section Dict.
Context {V : Type}.

Fixpoint dict_get (k : string) (d : list (string * V)) : option V :=
  match d with
  | [] => None
  | (k', v) :: d' => if String.eqb k k' then Some v else dict_get k d'
  end.

Definition dict_mem (k : string) (d : list (string * V)) : bool :=
  match dict_get k d with Some _ => true | None => false end.

(** [d[k] = v]: an existing key keeps its place, a new one goes last. *)
Fixpoint dict_set (k : string) (v : V) (d : list (string * V)) : list (string * V) :=
  match d with
  | [] => [(k, v)]
  | (k', v') :: d' =>
      if String.eqb k k' then (k', v) :: d' else (k', v') :: dict_set k v d'
  end.

Definition keys (d : list (string * V)) : list string := map fst d.
End Dict.

(** ** Strings *)

Definition is_space (c : ascii) : bool :=
  let n := Z.of_nat (nat_of_ascii c) in
  ((9 <=? n) && (n <=? 13)) || (n =? 32).

Definition is_digit (c : ascii) : bool :=
  let n := Z.of_nat (nat_of_ascii c) in
  (48 <=? n) && (n <=? 57).

Fixpoint lstrip (s : string) : string :=
  match s with
  | String c s' => if is_space c then lstrip s' else s
  | EmptyString => EmptyString
  end.

Fixpoint rstrip (s : string) : string :=
  match s with
  | EmptyString => EmptyString
  | String c s' =>
      match rstrip s' with
      | EmptyString => if is_space c then EmptyString else String c EmptyString
      | r => String c r
      end
  end.

Definition strip (s : string) : string := rstrip (lstrip s).

Fixpoint all_space (s : string) : bool :=
  match s with
  | EmptyString => true
  | String c s' => is_space c && all_space s'
  end.

(** The value of [c] as a digit in a base up to 36. *)
Definition digit_val (c : ascii) : option Z :=
  let n := Z.of_nat (nat_of_ascii c) in
  if (48 <=? n) && (n <=? 57) then Some (n - 48)
  else if (97 <=? n) && (n <=? 122) then Some (n - 87)
  else if (65 <=? n) && (n <=? 90) then Some (n - 55)
  else None.

(** ** [int(string, base)]

    Leading blanks, an optional sign, for base 16 an optional [0x] and one
    underscore, then digits with single underscores between them, then blanks
    to the end of the string. *)

(** Reads digits and underscores; [None] on a doubled or trailing underscore,
    otherwise the value read, the number of digits and what follows them. *)
Fixpoint scan_digits (base : Z) (s : string) (acc : Z) (n : nat) (prev_us : bool)
  : option (Z * nat * string) :=
  match s with
  | EmptyString => if prev_us then None else Some (acc, n, EmptyString)
  | String c s' =>
      if Ascii.eqb c "_"%char then
        if prev_us then None else scan_digits base s' acc n true
      else
        match digit_val c with
        | Some d =>
            if d <? base then scan_digits base s' (acc * base + d) (S n) false
            else if prev_us then None else Some (acc, n, s)
        | None => if prev_us then None else Some (acc, n, s)
        end
  end.

Definition take_sign (s : string) : bool * string :=
  match s with
  | String "-" s' => (true, s')
  | String "+" s' => (false, s')
  | _ => (false, s)
  end.

Definition skip_hex_prefix (base : Z) (s : string) : string :=
  if base =? 16 then
    match s with
    | String "0" (String "x" s') | String "0" (String "X" s') =>
        match s' with
        | String "_" s'' => s''
        | _ => s'
        end
    | _ => s
    end
  else s.

Definition parse_int (base : Z) (s : string) : option Z :=
  let '(neg, s1) := take_sign (lstrip s) in
  let s2 := skip_hex_prefix base s1 in
  match s2 with
  | String "_" _ => None
  | _ =>
      match scan_digits base s2 0 0%nat false with
      | Some (v, S _, rest) =>
          if all_space rest then Some (if neg then - v else v) else None
      | _ => None
      end
  end.

(** ** [float(string)]

    Blanks are stripped at both ends; underscores are dropped when each one
    stands between two digits; what remains is an optional sign followed by
    [inf], [infinity] or [nan] in any case, or by a decimal literal: digits
    with at most one point and at least one digit, then optionally [e] or [E],
    an optional sign and at least one digit.  The decimal value is rounded to
    the nearest binary64 number, ties to even. *)

Definition prec : Z := 53.
Definition emax : Z := 1024.

Definition lower (c : ascii) : ascii :=
  let n := nat_of_ascii c in
  if ((65 <=? Z.of_nat n) && (Z.of_nat n <=? 90)) then ascii_of_nat (n + 32) else c.

Fixpoint lower_string (s : string) : string :=
  match s with
  | EmptyString => EmptyString
  | String c s' => String (lower c) (lower_string s')
  end.

(** Drops the underscores of [s]; [None] unless each follows a digit and is
    followed by a digit.  [prev] is the character before [s], if any. *)
Fixpoint drop_underscores (prev : option ascii) (s : string) : option string :=
  match s with
  | EmptyString =>
      match prev with
      | Some "_"%char => None
      | _ => Some EmptyString
      end
  | String c s' =>
      if Ascii.eqb c "_"%char then
        match prev with
        | Some p => if is_digit p then drop_underscores (Some c) s' else None
        | None => None
        end
      else
        match prev with
        | Some "_"%char =>
            if is_digit c then option_map (String c) (drop_underscores (Some c) s')
            else None
        | _ => option_map (String c) (drop_underscores (Some c) s')
        end
  end.

(** Reads a run of decimal digits: its value on top of [acc], its length and
    the rest of the string. *)
Fixpoint scan_decimal (s : string) (acc : Z) (n : Z) : Z * Z * string :=
  match s with
  | String c s' =>
      if is_digit c then scan_decimal s' (acc * 10 + (Z.of_nat (nat_of_ascii c) - 48)) (n + 1)
      else (acc, n, s)
  | EmptyString => (acc, n, s)
  end.

(** The binary64 number nearest to [m * 10 ^ e10], with sign [neg]. *)
Definition b64_of_decimal (neg : bool) (m : Z) (e10 : Z) : spec_float :=
  match m with
  | Zpos p =>
      if 0 <=? e10 then
        binary_normalize prec emax ((if neg then -1 else 1) * (m * 10 ^ e10)) 0 neg
      else
        SFdiv prec emax (S754_finite neg p 0)
                        (S754_finite false (Z.to_pos (10 ^ (- e10))) 0)
  | _ => S754_zero neg
  end.

(** The exponent part of a literal: empty, or [e], a sign and digits. *)
Definition parse_exponent (s : string) : option Z :=
  match s with
  | EmptyString => Some 0
  | String c s' =>
      if Ascii.eqb (lower c) "e"%char then
        let '(neg, s1) := take_sign s' in
        match scan_decimal s1 0 0 with
        | (e, n, EmptyString) => if 0 <? n then Some (if neg then - e else e) else None
        | _ => None
        end
      else None
  end.

Definition parse_decimal (neg : bool) (s : string) : option spec_float :=
  let '(ip, ni, s1) := scan_decimal s 0 0 in
  let '(m, nf, s2) :=
    match s1 with
    | String "." s1' => scan_decimal s1' ip 0
    | _ => (ip, 0, s1)
    end in
  if 0 <? ni + nf then
    match parse_exponent s2 with
    | Some e => Some (b64_of_decimal neg m (e - nf))
    | None => None
    end
  else None.

Definition parse_float (s : string) : option spec_float :=
  match drop_underscores None (strip s) with
  | None => None
  | Some s0 =>
      let '(neg, s1) := take_sign s0 in
      let w := lower_string s1 in
      if String.eqb w "inf" || String.eqb w "infinity" then Some (S754_infinity neg)
      else if String.eqb w "nan" then Some S754_nan
      else parse_decimal neg s1
  end.

(** ** [int(x)] and [float(x)] on values *)

(** The integer part of a finite float, towards zero. *)
Definition trunc_float (f : spec_float) : result Z :=
  match f with
  | S754_zero _ => Ok 0
  | S754_finite s m e =>
      let a := if 0 <=? e then Zpos m * 2 ^ e else Zpos m / 2 ^ (- e) in
      Ok (if s then - a else a)
  | S754_infinity _ => Err OverflowError
  | S754_nan => Err ValueError
  end.

Definition int_of (v : value) : result Z :=
  match v with
  | PStr s => match parse_int 10 s with Some z => Ok z | None => Err ValueError end
  | PInt z => Ok z
  | PBool b => Ok (if b then 1 else 0)
  | PFloat f => trunc_float f
  | _ => Err TypeError
  end.

Definition float_of_Z (z : Z) : result spec_float :=
  match binary_normalize prec emax z 0 false with
  | S754_infinity _ => Err OverflowError
  | f => Ok f
  end.

Definition float_of (v : value) : result spec_float :=
  match v with
  | PStr s => match parse_float s with Some f => Ok f | None => Err ValueError end
  | PInt z => float_of_Z z
  | PBool b => float_of_Z (if b then 1 else 0)
  | PFloat f => Ok f
  | _ => Err TypeError
  end.

(** [z == f] for an int and a float: true when both denote the same number. *)
Definition int_eq_float (z : Z) (f : spec_float) : bool :=
  match f with
  | S754_zero _ => z =? 0
  | S754_finite s m e =>
      let a := if s then Zneg m else Zpos m in
      if 0 <=? e then z =? a * 2 ^ e else z * 2 ^ (- e) =? a
  | _ => false
  end.

(** ** Regular expressions

    The fragment of Python's [re] syntax the module and [strptime] use:
    literals, one character of a class, a greedy [+] on a class, sequence,
    alternation, a greedy optional part and numbered capturing groups.
    [rmatch] is a backtracking matcher in continuation-passing style: it tries
    the alternatives in Python's order and the first overall match wins. *)

Inductive regex : Type :=
| Lit (l : string)
| Cls (p : ascii -> bool)
| ClsPlus (p : ascii -> bool)
| Seq (r1 r2 : regex)
| Alt (r1 r2 : regex)
| Opt (r : regex)
| Group (i : nat) (r : regex).

Fixpoint strip_prefix (l s : string) : option string :=
  match l, s with
  | EmptyString, _ => Some s
  | String a l', String b s' => if Ascii.eqb a b then strip_prefix l' s' else None
  | String _ _, EmptyString => None
  end.

(** What was read between [s] and its suffix [s']. *)
Definition consumed (s s' : string) : string :=
  substring 0 (String.length s - String.length s') s.

Fixpoint set_nth {A : Type} (i : nat) (a : A) (l : list A) : list A :=
  match i, l with
  | O, _ :: l' => a :: l'
  | S i', b :: l' => b :: set_nth i' a l'
  | _, [] => []
  end.

Fixpoint plus_match {R : Type} (p : ascii -> bool) (s : string)
  (k : string -> option R) : option R :=
  match s with
  | String c s' =>
      if p c then
        match plus_match p s' k with
        | Some x => Some x
        | None => k s'
        end
      else None
  | EmptyString => None
  end.

Definition captures : Type := list (option string).

Fixpoint rmatch {R : Type} (r : regex) (s : string) (caps : captures)
  (k : string -> captures -> option R) : option R :=
  match r with
  | Lit l =>
      match strip_prefix l s with
      | Some s' => k s' caps
      | None => None
      end
  | Cls p =>
      match s with
      | String c s' => if p c then k s' caps else None
      | EmptyString => None
      end
  | ClsPlus p => plus_match p s (fun s' => k s' caps)
  | Seq r1 r2 => rmatch r1 s caps (fun s' caps' => rmatch r2 s' caps' k)
  | Alt r1 r2 =>
      match rmatch r1 s caps k with
      | Some x => Some x
      | None => rmatch r2 s caps k
      end
  | Opt r1 =>
      match rmatch r1 s caps k with
      | Some x => Some x
      | None => k s caps
      end
  | Group i r1 =>
      rmatch r1 s caps (fun s' caps' => k s' (set_nth i (Some (consumed s s')) caps'))
  end.

(** [r1 r2 ... rn] and [r1|r2|...|rn]. *)
Fixpoint seq_of (rs : list regex) : regex :=
  match rs with
  | [] => Lit ""
  | [r] => r
  | r :: rs' => Seq r (seq_of rs')
  end.

Fixpoint alt_of (rs : list regex) : regex :=
  match rs with
  | [] => Lit ""
  | [r] => r
  | r :: rs' => Alt r (alt_of rs')
  end.

(** [re.match(rx, s)] for a pattern with [n] groups: the groups and the
    unread rest of [s], or [None]. *)
Definition re_match (rx : regex) (n : nat) (s : string) : option (captures * string) :=
  rmatch rx s (repeat None n) (fun s' caps => Some (caps, s')).

Definition group_value (g : option string) : value :=
  match g with
  | Some s => PStr s
  | None => PNone
  end.

(** [m.groups()] of [re.match(rx, string)]; [None.groups()] is an
    [AttributeError], a subject that is no string a [TypeError]. *)
Definition match_groups (rx : regex) (n : nat) (string : value) : result (list value) :=
  match string with
  | PStr s =>
      match re_match rx n s with
      | Some (caps, _) => Ok (map group_value caps)
      | None => Err AttributeError
      end
  | _ => Err TypeError
  end.

(** ** The converters of casting.py *)

(** [default] *)
Definition default (v : value) : result value := Ok v.

(** [truthy]: [bool(int(string))] *)
Definition truthy (string : value) : result value :=
  z <- int_of string ;; Ok (PBool (negb (z =? 0))).

(** [num]: prefer an int, use a float if necessary. *)
Definition num (string : value) : result value :=
  val <- float_of string ;;
  int_val <- trunc_float val ;;
  Ok (if int_eq_float int_val val then PInt int_val else PFloat val).

(** [hex_int]: [int(string, 16)]; with an explicit base only a string is
    accepted. *)
Definition hex_int (string : value) : result value :=
  match string with
  | PStr s => match parse_int 16 s with Some z => Ok (PInt z) | None => Err ValueError end
  | _ => Err TypeError
  end.

(** The class [[-.e\d]] on ASCII characters, whose decimal digits are
    [0]-[9]. *)
Definition num_char (c : ascii) : bool :=
  Ascii.eqb c "-" || Ascii.eqb c "." || Ascii.eqb c "e" || is_digit c.

(** [', '.join(['([-.e\d]+)'] * n)], the groups numbered from [i]. *)
Fixpoint vector_groups (i n : nat) : regex :=
  match n with
  | O => Lit ""
  | S O => Group i (ClsPlus num_char)
  | S n' => Seq (Group i (ClsPlus num_char)) (Seq (Lit ", ") (vector_groups (S i) n'))
  end.

(** ['{%s}' % ...] *)
Definition vector_rx (dimension : nat) : regex :=
  Seq (Lit "{") (Seq (vector_groups 0 dimension) (Lit "}")).

(** [vector] *)
Definition vector (string : value) (dimension : nat) : result value :=
  groups <- match_groups (vector_rx dimension) dimension string ;;
  l <- mapM num groups ;;
  Ok (PList l).

Definition point (string : value) : result value := vector string 2.

Definition transform (string : value) : result value := vector string 6.

(** ['([-.e\d]+) ([-.e\d]+) (LINE|CURVE|OFFCURVE)(?: (SMOOTH))?'] *)
Definition node_rx : regex :=
  seq_of
    [ Group 0 (ClsPlus num_char);
      Lit " ";
      Group 1 (ClsPlus num_char);
      Lit " ";
      Group 2 (alt_of [Lit "LINE"; Lit "CURVE"; Lit "OFFCURVE"]);
      Opt (Seq (Lit " ") (Group 3 (Lit "SMOOTH"))) ].

(** [node] *)
Definition node (string : value) : result value :=
  m <- match_groups node_rx 4 string ;;
  match m with
  | [m0; m1; m2; m3] =>
      x <- num m0 ;; y <- num m1 ;; Ok (PList [x; y; m2; m3])
  | _ => Err TypeError  (* not reached: the pattern has four groups *)
  end.

(** The builtin [int] used as a converter. *)
Definition py_int (v : value) : result value :=
  z <- int_of v ;; Ok (PInt z).

(** [descender_val]: descender values are always negative. *)
Definition descender_val (string : value) : result value :=
  num <- int_of string ;;
  if num <? 0 then Ok (PInt num) else Err AssertionError.

(** [version_minor]: the minor version number is between 0 and 999. *)
Definition version_minor (string : value) : result value :=
  num <- int_of string ;;
  if (0 <=? num) && (num <=? 999) then Ok (PInt num) else Err AssertionError.

(** *** Iteration and [map] *)

Fixpoint chars (s : string) : list value :=
  match s with
  | EmptyString => []
  | String c s' => PStr (String c EmptyString) :: chars s'
  end.

Definition apply_mapfn (f : mapfn) (x : value) : result value :=
  match f with
  | MapInt => py_int x
  | MapPoint => point x
  | MapNode => node x
  end.

(** [for x in v: body(x)], collecting what the bodies return.  A list gives
    its elements, a dict its keys, a string its characters; a [map] iterator
    computes each element just before the body runs on it. *)
Fixpoint for_each {A : Type} (v : value) (body : value -> result A) : result (list A) :=
  match v with
  | PList l => mapM body l
  | PDict d => mapM body (map (fun kv => PStr (fst kv)) d)
  | PStr s => mapM body (chars s)
  | PMap f src => for_each src (fun x => y <- apply_mapfn f x ;; body y)
  | _ => Err TypeError
  end.

(** The elements [v] yields when it is consumed. *)
Definition elements (v : value) : result (list value) := for_each v Ok.

(** [map(f, v)]: the iterator is built at once, which needs [v] iterable;
    no element is computed yet. *)
Definition py_map (f : mapfn) (v : value) : result value :=
  match v with
  | PList _ | PDict _ | PStr _ | PMap _ _ => Ok (PMap f v)
  | _ => Err TypeError
  end.

Definition intlist (strlist : value) : result value := py_map MapInt strlist.

Definition pointlist (strlist : value) : result value := py_map MapPoint strlist.

Definition nodelist (strlist : value) : result value := py_map MapNode strlist.

(** The builtin [list] used as a converter. *)
Definition py_list (v : value) : result value :=
  l <- elements v ;; Ok (PList l).

(** *** [glyphs_datetime] *)

(** [s.rfind(' ')] *)
Fixpoint rfind_space (s : string) : Z :=
  match s with
  | EmptyString => -1
  | String c s' =>
      let r := rfind_space s' in
      if 0 <=? r then r + 1 else if Ascii.eqb c " " then 0 else -1
  end.

(** [s[:n]] *)
Definition slice_to (s : string) (n : Z) : string :=
  let len := Z.of_nat (String.length s) in
  let stop := if n <? 0 then Z.max 0 (len + n) else Z.min n len in
  substring 0 (Z.to_nat stop) s.

(** [\s] on ASCII characters. *)
Definition re_space (c : ascii) : bool :=
  let n := Z.of_nat (nat_of_ascii c) in
  ((9 <=? n) && (n <=? 13)) || ((28 <=? n) && (n <=? 32)).

Definition in_range (lo hi : ascii) (c : ascii) : bool :=
  (Z.of_nat (nat_of_ascii lo) <=? Z.of_nat (nat_of_ascii c)) &&
  (Z.of_nat (nat_of_ascii c) <=? Z.of_nat (nat_of_ascii hi)).

(** The class [[lo-hi]]. *)
Definition rng (lo hi : ascii) : regex := Cls (in_range lo hi).

(** The pattern [strptime] compiles for ['%Y-%m-%d %H:%M:%S']:
    [(\d\d\d\d)-(1[0-2]|0[1-9]|[1-9])-(3[0-1]|[1-2]\d|0[1-9]|[1-9]| [1-9])\s+]
    [(2[0-3]|[0-1]\d|\d):([0-5]\d|\d):(6[0-1]|[0-5]\d|\d)]. *)
Definition strptime_rx : regex :=
  let d := Cls is_digit in
  seq_of
    [ Group 0 (seq_of [d; d; d; d]);
      Lit "-";
      Group 1 (alt_of [Seq (Lit "1") (rng "0" "2"); Seq (Lit "0") (rng "1" "9"); rng "1" "9"]);
      Lit "-";
      Group 2 (alt_of [Seq (Lit "3") (rng "0" "1"); Seq (rng "1" "2") d;
                       Seq (Lit "0") (rng "1" "9"); rng "1" "9";
                       Seq (Lit " ") (rng "1" "9")]);
      ClsPlus re_space;
      Group 3 (alt_of [Seq (Lit "2") (rng "0" "3"); Seq (rng "0" "1") d; d]);
      Lit ":";
      Group 4 (alt_of [Seq (rng "0" "5") d; d]);
      Lit ":";
      Group 5 (alt_of [Seq (Lit "6") (rng "0" "1"); Seq (rng "0" "5") d; d]) ].

Definition is_leap (y : Z) : bool :=
  (y mod 4 =? 0) && (negb (y mod 100 =? 0) || (y mod 400 =? 0)).

Definition days_in_month (y m : Z) : Z :=
  if m =? 2 then (if is_leap y then 29 else 28)
  else if (m =? 4) || (m =? 6) || (m =? 9) || (m =? 11) then 30
  else 31.

Definition group_int (g : option string) : option Z :=
  match g with
  | Some s => parse_int 10 s
  | None => None
  end.

(** [datetime.strptime(s, '%Y-%m-%d %H:%M:%S')]: the whole of [s] must match,
    and the fields must form a date-time the [datetime] type accepts. *)
Definition strptime (s : string) : result value :=
  match re_match strptime_rx 6 s with
  | Some ([gY; gm; gd; gH; gM; gS], EmptyString) =>
      match group_int gY, group_int gm, group_int gd,
            group_int gH, group_int gM, group_int gS with
      | Some y, Some mo, Some d, Some h, Some mi, Some sec =>
          if (1 <=? y) && (d <=? days_in_month y mo) && (sec <=? 59)
          then Ok (PDatetime y mo d h mi sec)
          else Err ValueError
      | _, _, _, _, _, _ => Err ValueError
      end
  | _ => Err ValueError
  end.

(** [glyphs_datetime]: parse the date and time before the last blank of the
    string.  Only a string has the method [rfind]. *)
Definition glyphs_datetime (string : value) : result value :=
  match string with
  | PStr s => strptime (slice_to s (rfind_space s))
  | _ => Err AttributeError
  end.

(** *** [kerning] *)

(** [for x in l: acc = body(acc, x)] *)
Fixpoint foldM {A B : Type} (body : A -> B -> result A) (l : list B) (acc : A) : result A :=
  match l with
  | [] => Ok acc
  | b :: l' => acc' <- body acc b ;; foldM body l' acc'
  end.

(** [v.items()]: only a dict has the method. *)
Definition items (v : value) : result (list (string * value)) :=
  match v with
  | PDict d => Ok d
  | _ => Err AttributeError
  end.

Definition kerning_glyph_map (glyph_map : value) : result value :=
  rs <- items glyph_map ;;
  new <- foldM (fun new '(right_glyph, value) =>
                  z <- py_int value ;; Ok (dict_set right_glyph z new)) rs [] ;;
  Ok (PDict new).

Definition kerning_master_map (master_map : value) : result value :=
  ls <- items master_map ;;
  new <- foldM (fun new '(left_glyph, glyph_map) =>
                  g <- kerning_glyph_map glyph_map ;; Ok (dict_set left_glyph g new)) ls [] ;;
  Ok (PDict new).

(** [kerning]: cast the values in kerning data to ints. *)
Definition kerning (kerning_data : value) : result value :=
  ms <- items kerning_data ;;
  new_data <- foldM (fun new_data '(master_id, master_map) =>
                  m <- kerning_master_map master_map ;; Ok (dict_set master_id m new_data)) ms [] ;;
  Ok (PDict new_data).

(** *** [feature_syntax] *)

(** [s.replace(old, new)] for a non-empty [old]; [skip] characters of a match
    are still to be dropped. *)
Fixpoint replace_from (old new s : string) (skip : nat) : string :=
  match s with
  | EmptyString => EmptyString
  | String c s' =>
      match skip with
      | S k => replace_from old new s' k
      | O =>
          match strip_prefix old s with
          | Some _ => new ++ replace_from old new s' (String.length old - 1)
          | None => String c (replace_from old new s' O)
          end
      end
  end.

Definition replace (old new s : string) : string := replace_from old new s O.

Definition newline : string := String (ascii_of_nat 10) EmptyString.
Definition tab : string := String (ascii_of_nat 9) EmptyString.
Definition quote : string := String (ascii_of_nat 34) EmptyString.

Definition replacements : list (string * string) :=
  [ ("\012", newline); ("\011", tab); ("\U2018", "'"); ("\U2019", "'");
    ("\U201C", quote); ("\U201D", quote) ].

(** [feature_syntax]: replace escaped characters with their intended
    characters.  A value that is no string has no method [replace], except a
    datetime, whose [replace] rejects the arguments. *)
Definition feature_syntax (string : value) : result value :=
  match string with
  | PStr s =>
      Ok (PStr (fold_left (fun str '(escaped, unescaped) => replace escaped unescaped str)
                          replacements s))
  | PDatetime _ _ _ _ _ _ => Err TypeError
  | _ => Err AttributeError
  end.

(** ** The caster *)

Definition DEFAULTS : list (string * value) :=
  [ ("interpolationWeight", PInt 100);
    ("interpolationWidth", PInt 100);
    ("widthValue", PInt 100);
    ("weightValue", PInt 100) ].

(** A schema node: a converter, or a sub-schema (a dict of schema nodes). *)
Inductive schema : Type :=
| Conv (f : value -> result value)
| Sub (fields : list (string * schema)).

Definition is_str (k : string) (v : value) : bool :=
  match v with
  | PStr s => String.eqb s k
  | _ => false
  end.

Fixpoint is_substring (k s : string) : bool :=
  match strip_prefix k s with
  | Some _ => true
  | None =>
      match s with
      | String _ s' => is_substring k s'
      | EmptyString => false
      end
  end.

(** [key in data] for a string [key].  No element of a [map] of [int],
    [point] or [node] is a string, so the search through one reads it all. *)
Definition contains (data : value) (key : string) : result bool :=
  match data with
  | PDict d => Ok (dict_mem key d)
  | PStr s => Ok (is_substring key s)
  | PList l => Ok (existsb (is_str key) l)
  | PMap _ _ => _ <- elements data ;; Ok false
  | _ => Err TypeError
  end.

(** [data[key]] for a string [key]. *)
Definition getitem (data : value) (key : string) : result value :=
  match data with
  | PDict d =>
      match dict_get key d with
      | Some v => Ok v
      | None => Err KeyError
      end
  | _ => Err TypeError
  end.

(** [data[key] = v] for a string [key]. *)
Definition setitem (data : value) (key : string) (v : value) : result value :=
  match data with
  | PDict d => Ok (PDict (dict_set key v d))
  | _ => Err TypeError
  end.

(** A value once it has been iterated over to the end.  A [map] iterator is
    exhausted by that: it yields nothing any more, like a [map] over nothing.
    A list, a dict or a string can be iterated over again. *)
Definition exhausted (v : value) : value :=
  match v with
  | PMap f _ => PMap f (PList [])
  | _ => v
  end.

(** The container [v] once the loop over it has run and left the records
    [recs]: the records of a list are dicts changed in place; a [map]
    iterator has been read to its end; what a dict or a string yields is
    immutable. *)
Definition with_records (v : value) (recs : list value) : value :=
  match v with
  | PList _ => PList recs
  | _ => exhausted v
  end.

(** The body of the loop of [cast_data] for the schema entry
    [(key, cur_type)], and, nested in it, the loop itself over the entries
    of a sub-schema.  When [data] is a [map] iterator the test
    [key not in data] has read it to its end. *)
Fixpoint cast_entry (cur_type : schema) (key : string) (data : value) {struct cur_type}
  : result value :=
  present <- contains data key ;;
  if negb present then
    match dict_get key DEFAULTS with
    | Some dflt => setitem data key dflt
    | None => Ok (exhausted data)
    end
  else
    match cur_type with
    | Sub fields =>
        v <- getitem data key ;;
        recs <- for_each v
                  (fun cur_data =>
                     (fix cast_fields (types : list (string * schema)) (data : value)
                        : result value :=
                        match types with
                        | [] => Ok data
                        | (key, cur_type) :: types' =>
                            data' <- cast_entry cur_type key data ;;
                            cast_fields types' data'
                        end) fields cur_data) ;;
        setitem data key (with_records v recs)
    | Conv f =>
        v <- getitem data key ;;
        v' <- f v ;;
        setitem data key v'
    end.

(** [for key, cur_type in types.items(): ...] *)
Fixpoint cast_fields (types : list (string * schema)) (data : value) : result value :=
  match types with
  | [] => Ok data
  | (key, cur_type) :: types' =>
      data' <- cast_entry cur_type key data ;;
      cast_fields types' data'
  end.

Section Caster.
(** Two builtins the schema names are left open where the module does not
    determine them: the text [str] gives a value that is not a string, and
    what [dict] makes of a value that is not a dict. *)
Variable repr : value -> string.
Variable dict_of : value -> result value.

Definition py_str (v : value) : result value :=
  match v with
  | PStr s => Ok (PStr s)
  | _ => Ok (PStr (repr v))
  end.

Definition py_dict (v : value) : result value :=
  match v with
  | PDict d => Ok (PDict d)
  | _ => dict_of v
  end.

Definition custom_parameters : schema :=
  Sub [ ("name", Conv py_str); ("value", Conv default) ].

(** [get_type_structure]: the highest-level type hierarchy for glyphs data. *)
Definition get_type_structure : list (string * schema) :=
  [ ("DisplayStrings", Conv py_list);
    ("classes", Sub [ ("automatic", Conv truthy);
                      ("code", Conv feature_syntax);
                      ("name", Conv py_str) ]);
    ("copyright", Conv py_str);
    ("customParameters", custom_parameters);
    ("date", Conv glyphs_datetime);
    ("designer", Conv py_str);
    ("designerURL", Conv py_str);
    ("disablesAutomaticAlignment", Conv truthy);
    ("disablesNiceNames", Conv truthy);
    ("familyName", Conv py_str);
    ("featurePrefixes", Sub [ ("code", Conv feature_syntax);
                              ("name", Conv py_str) ]);
    ("features", Sub [ ("automatic", Conv truthy);
                       ("code", Conv feature_syntax);
                       ("disabled", Conv truthy);
                       ("name", Conv py_str);
                       ("notes", Conv feature_syntax) ]);
    ("fontMaster", Sub [ ("alignmentZones", Conv pointlist);
                         ("ascender", Conv py_int);
                         ("capHeight", Conv py_int);
                         ("customParameters", custom_parameters);
                         ("descender", Conv descender_val);
                         ("horizontalStems", Conv intlist);
                         ("id", Conv py_str);
                         ("userData", Conv py_dict);
                         ("verticalStems", Conv intlist);
                         ("weight", Conv py_str);
                         ("weightValue", Conv py_int);
                         ("width", Conv py_str);
                         ("widthValue", Conv py_int);
                         ("xHeight", Conv py_int) ]);
    ("glyphs", Sub [ ("glyphname", Conv py_str);
                     ("lastChange", Conv glyphs_datetime);
                     ("layers", Sub [ ("anchors", Sub [ ("name", Conv py_str);
                                                        ("position", Conv point) ]);
                                      ("annotations", Conv default);
                                      ("associatedMasterId", Conv py_str);
                                      ("background", Conv default);
                                      ("components", Sub [ ("anchor", Conv py_str);
                                                           ("disableAlignment", Conv truthy);
                                                           ("locked", Conv truthy);
                                                           ("name", Conv py_str);
                                                           ("transform", Conv transform) ]);
                                      ("guideLines", Conv default);
                                      ("hints", Conv default);
                                      ("layerId", Conv py_str);
                                      ("leftMetricsKey", Conv py_str);
                                      ("rightMetricsKey", Conv py_str);
                                      ("name", Conv py_str);
                                      ("paths", Sub [ ("closed", Conv truthy);
                                                      ("nodes", Conv nodelist) ]);
                                      ("width", Conv num) ]);
                     ("leftKerningGroup", Conv py_str);
                     ("leftMetricsKey", Conv py_str);
                     ("rightKerningGroup", Conv py_str);
                     ("rightMetricsKey", Conv py_str);
                     ("unicode", Conv hex_int);
                     ("widthMetricsKey", Conv py_str) ]);
    ("instances", Sub [ ("customParameters", custom_parameters);
                        ("interpolationWeight", Conv py_int);
                        ("interpolationWidth", Conv py_int);
                        ("name", Conv py_str);
                        ("weightClass", Conv py_str);
                        ("widthClass", Conv py_str) ]);
    ("kerning", Conv kerning);
    ("manufacturer", Conv py_str);
    ("manufacturerURL", Conv py_str);
    ("unitsPerEm", Conv py_int);
    ("userData", Conv py_dict);
    ("versionMajor", Conv py_int);
    ("versionMinor", Conv version_minor) ].

(** [if types is None: types = get_type_structure()] *)
Definition schema_of (types : option (list (string * schema)))
  : list (string * schema) :=
  match types with
  | None => get_type_structure
  | Some t => t
  end.

(** [cast_data(data, types=None)]: cast the attributes of parsed glyphs
    file content.  The result is [data] after the call. *)
Definition cast_data (data : value) (types : option (list (string * schema)))
  : result value :=
  cast_fields (schema_of types) data.
End Caster.

(** The body of the loop of [cast_custom_data]; the result is [param] after
    it. *)
Definition cast_custom_param (param : value) : result value :=
  name <- getitem param "name" ;;
  if is_str "openTypeOS2Type" name then
    v <- getitem param "value" ;;
    m <- py_map MapInt v ;;
    setitem param "value" m
  else Ok param.

(** [cast_custom_data]: cast some known data in custom parameters.  The
    result is [data] after the call. *)
Definition cast_custom_data (data : value) : result value :=
  params <- getitem data "customParameters" ;;
  params' <- for_each params cast_custom_param ;;
  setitem data "customParameters" (with_records params params').

(** ** Notions the statements use *)

(** [f] is a finite float whose exact value is the fraction [n / d]. *)
Definition float_is (f : spec_float) (n d : Z) : Prop :=
  match f with
  | S754_finite s m e =>
      0 < d /\ (if s then Zneg m else Zpos m) * 2 ^ (Z.max e 0) * d = n * 2 ^ (Z.max (- e) 0)
  | S754_zero _ => 0 < d /\ n = 0
  | _ => False
  end.

(** *** The form of a node string *)

Fixpoint all_chars (p : ascii -> bool) (s : string) : bool :=
  match s with
  | EmptyString => true
  | String c s' => p c && all_chars p s'
  end.

Definition starts_with (p : ascii -> bool) (s : string) : bool :=
  match s with
  | String c _ => p c
  | EmptyString => false
  end.

(** A string of ASCII characters: every code is below 128. *)
Definition is_ascii (c : ascii) : bool := Z.of_nat (nat_of_ascii c) <? 128.

Definition ascii_string (s : string) : Prop := all_chars is_ascii s = true.

(** A numeric token: one or more of the characters [-], [.], [e], [0]-[9]. *)
Definition token (x : string) : Prop :=
  x <> "" /\ all_chars num_char x = true.

Definition node_types : list string := ["LINE"; "CURVE"; "OFFCURVE"].

(** [s] begins with [X Y TYPE]: two tokens, each followed by one blank, and
    a segment type; [rest] is what follows the type. *)
Definition node_form (s x y t rest : string) : Prop :=
  s = x ++ " " ++ y ++ " " ++ t ++ rest /\ token x /\ token y /\ In t node_types.

(** The optional fourth component: ["SMOOTH"] when [" SMOOTH"] follows the
    segment type, else [None]. *)
Definition smooth_of (rest : string) : value :=
  match strip_prefix " SMOOTH" rest with
  | Some _ => PStr "SMOOTH"
  | None => PNone
  end.

(** The longest prefix of [s] made of characters of [p], and what follows. *)
Fixpoint span (p : ascii -> bool) (s : string) : string * string :=
  match s with
  | String c s' =>
      if p c then let '(x, r) := span p s' in (String c x, r) else (EmptyString, s)
  | EmptyString => (EmptyString, EmptyString)
  end.

Definition first_type (s : string) : option (string * string) :=
  match strip_prefix "LINE" s with
  | Some r => Some ("LINE", r)
  | None =>
      match strip_prefix "CURVE" s with
      | Some r => Some ("CURVE", r)
      | None =>
          match strip_prefix "OFFCURVE" s with
          | Some r => Some ("OFFCURVE", r)
          | None => None
          end
      end
  end.

(** The deterministic reading of a node string the backtracking matcher is
    shown to agree with. *)
Definition node_split (s : string) : option (string * string * string * string) :=
  match span num_char s with
  | (String _ _ as x, String " " r2) =>
      match span num_char r2 with
      | (String _ _ as y, String " " r4) =>
          match first_type r4 with
          | Some (t, rest) => Some (x, y, t, rest)
          | None => None
          end
      | _ => None
      end
  | _ => None
  end.

(** *** Kerning grids *)

(** A three-level table master id -> left glyph -> right glyph -> leaf. *)
Definition grid (A : Type) : Type :=
  list (string * list (string * list (string * A))).

Definition map_values {A B : Type} (f : A -> B) (l : list (string * A))
  : list (string * B) :=
  map (fun kv => (fst kv, f (snd kv))) l.

(** The same keys at every level, each leaf replaced by its image. *)
Definition grid_map {A B : Type} (f : A -> B) (g : grid A) : grid B :=
  map_values (map_values (map_values f)) g.

(** The nested dict that holds the table. *)
Definition grid_value {A : Type} (leaf : A -> value) (g : grid A) : value :=
  PDict (map_values (fun m => PDict (map_values (fun l => PDict (map_values leaf l)) m)) g).

Definition grid_leaves {A : Type} (g : grid A) : list A :=
  flat_map (fun m => flat_map (fun l => map snd (snd l)) (snd m)) g.

(** The keys of each dict of the table are distinct, as those of a dict are. *)
Definition distinct_keys {A : Type} (g : grid A) : Prop :=
  NoDup (keys g) /\
  Forall (fun m => NoDup (keys (snd m)) /\
                   Forall (fun l => NoDup (keys (snd l))) (snd m)) g.

(** The int a leaf is read as ([0] stands for a leaf [int] rejects). *)
Definition to_int (s : string) : Z :=
  match parse_int 10 s with
  | Some z => z
  | None => 0
  end.

(** An integer string: one that [int] accepts. *)
Definition int_string (s : string) : Prop := exists z, parse_int 10 s = Some z.

Definition glyph_dict (l : list (string * string)) : value :=
  PDict (map_values PStr l).

Definition master_dict (m : list (string * list (string * string))) : value :=
  PDict (map_values glyph_dict m).

(** One level of the three nested loops of [kerning]. *)
Definition level_body (f : value -> result value)
  (new : list (string * value)) (kx : string * value) : result (list (string * value)) :=
  let '(k, x) := kx in y <- f x ;; Ok (dict_set k y new).

Definition cast_level (f : value -> result value) (v : value) : result value :=
  rs <- items v ;;
  new <- foldM (level_body f) rs [] ;;
  Ok (PDict new).

(** *** Schemas and defaults *)

Fixpoint nodupb (l : list string) : bool :=
  match l with
  | [] => true
  | a :: l' => negb (existsb (String.eqb a) l') && nodupb l'
  end.

(** The fields of the sub-schema at key [k]. *)
Definition sub_schema (k : string) (types : list (string * schema))
  : list (string * schema) :=
  match dict_get k types with
  | Some (Sub fields) => fields
  | _ => []
  end.

Definition default_keys : list string :=
  ["interpolationWeight"; "interpolationWidth"; "widthValue"; "weightValue"].

(** *** Custom parameters *)

Definition os2_type : string := "openTypeOS2Type".

(** An entry of [customParameters] as the parser leaves it: a dict with a
    name, and with a list of strings as value when the name is
    [openTypeOS2Type]. *)
Definition custom_param (p : value) : Prop :=
  exists d name,
    p = PDict d /\ dict_get "name" d = Some name /\
    (is_str os2_type name = true ->
     exists strs, dict_get "value" d = Some (PList (map PStr strs))).

(** [int] reads every string of [strs], and [zs] are the integers it
    gives, in order. *)
Definition ints_of (strs : list string) (zs : list Z) : Prop :=
  Forall2 (fun s z => parse_int 10 s = Some z) strs zs.

(** [m] is the lazy sequence of the ints of [strs]: an iterator over the
    strings that has computed nothing yet; read, it yields the ints of the
    strings when [int] reads them all, and raises [ValueError] when there is
    one that [int] rejects. *)
Definition lazy_ints (strs : list string) (m : value) : Prop :=
  m = PMap MapInt (PList (map PStr strs)) /\
  (forall zs, ints_of strs zs -> elements m = Ok (map PInt zs)) /\
  (Exists (fun s => parse_int 10 s = None) strs -> elements m = Err ValueError).

(** What [cast_custom_data] is to make of the entry [p]: an entry named
    [openTypeOS2Type] gets its list of strings replaced by the lazy sequence
    of their ints; any other entry stays as it is. *)
Definition custom_param_cast (p p' : value) : Prop :=
  exists d name,
    p = PDict d /\ dict_get "name" d = Some name /\
    if is_str os2_type name then
      exists strs m,
        dict_get "value" d = Some (PList (map PStr strs)) /\
        p' = PDict (dict_set "value" m d) /\
        lazy_ints strs m
    else p' = p.

(** Concrete stand-ins for the open builtins, for the examples. *)
Definition repr0 (v : value) : string := "".
Definition dict_of0 (v : value) : result value := Err TypeError.

(** *** Escape sequences *)

(** [q] does not contain the character [c]. *)
Definition no_char (c : ascii) (q : string) : bool :=
  all_chars (fun a => negb (Ascii.eqb a c)) q.

(** The string of the one character [c]. *)
Definition one_char (c : ascii) : string := String c EmptyString.

(** The step of the loop of [feature_syntax]. *)
Definition unescape (str : string) (r : string * string) : string :=
  let '(escaped, unescaped) := r in replace escaped unescaped str.

(** A list of replacements in which each escape sequence is non-empty and is
    replaced by one character that occurs in none of the sequences [qs]. *)
Definition clean_replacements (qs : list string) (rs : list (string * string)) : Prop :=
  Forall (fun r => fst r <> "" /\
                   exists c, snd r = one_char c /\
                             Forall (fun q => no_char c q = true) qs) rs.

(** The text [feature_syntax] returns on the string [s]. *)
Definition feature_text (s : string) : string :=
  fold_left (fun str '(escaped, unescaped) => replace escaped unescaped str) replacements s.

(** The six escape sequences. *)
Definition escapes : list string := map fst replacements.


(** *** The form of a vector string *)

(** [', '.join(xs)] *)
Fixpoint join_tokens (xs : list string) : string :=
  match xs with
  | [] => ""
  | [x] => x
  | x :: xs' => x ++ ", " ++ join_tokens xs'
  end.

(** [s] begins with [{X1, X2, ..., Xd}]: [dimension] numeric tokens between
    braces, separated by a comma and one blank; [rest] is what follows the
    closing brace. *)
Definition vector_form (dimension : nat) (s : string) (xs : list string) (rest : string)
  : Prop :=
  s = "{" ++ join_tokens xs ++ "}" ++ rest /\
  List.length xs = dimension /\ Forall token xs.

(** The deterministic reading of [n] tokens and the closing brace. *)
Fixpoint vector_split (n : nat) (s : string) : option (list string * string) :=
  match n with
  | O =>
      match strip_prefix "}" s with
      | Some r => Some ([], r)
      | None => None
      end
  | S n' =>
      match span num_char s with
      | (String _ _ as x, r) =>
          match n' with
          | O =>
              match strip_prefix "}" r with
              | Some r' => Some ([x], r')
              | None => None
              end
          | S _ =>
              match strip_prefix ", " r with
              | Some r' =>
                  match vector_split n' r' with
                  | Some (xs, rest) => Some (x :: xs, rest)
                  | None => None
                  end
              | None => None
              end
          end
      | _ => None
      end
  end.

(** The groups [i], [i+1], ... set to the strings [xs]. *)
Fixpoint set_caps (i : nat) (xs : list string) (caps : captures) : captures :=
  match xs with
  | [] => caps
  | x :: xs' => set_caps (S i) xs' (set_nth i (Some x) caps)
  end.

(** An int or a float. *)
Definition is_number (v : value) : Prop :=
  match v with
  | PInt _ | PFloat _ => True
  | _ => False
  end.

(** *** The list converters *)

(** [intlist], [pointlist] and [nodelist], by the function they map. *)
Definition list_converter (f : mapfn) : value -> result value :=
  match f with
  | MapInt => intlist
  | MapPoint => pointlist
  | MapNode => nodelist
  end.

(** [int], [point] and [node]. *)
Definition scalar_converter (f : mapfn) : value -> result value :=
  match f with
  | MapInt => py_int
  | MapPoint => point
  | MapNode => node
  end.

(** *** What one schema entry makes of the value at its key *)

(** The value at [key] after the loop body for [(key, cur_type)], from the
    value [old] before it ([None]: absent). *)
Definition entry_value (cur_type : schema) (key : string) (old : option value)
  : result (option value) :=
  match old with
  | None => Ok (dict_get key DEFAULTS)
  | Some v =>
      match cur_type with
      | Conv f => v' <- f v ;; Ok (Some v')
      | Sub fields =>
          recs <- for_each v (cast_fields fields) ;; Ok (Some (with_records v recs))
      end
  end.

(** An entry of a [customParameters] list whose name, if it has one, is a
    string. *)
Definition named_entry (p : value) : Prop :=
  exists e, p = PDict e /\ forall v, dict_get "name" e = Some v -> exists s, v = PStr s.

(** Case analysis on a character that a match has compared with a blank. *)
Ltac blank_or_not c :=
  destruct c as [[] [] [] [] [] [] [] []]; try reflexivity; try discriminate.

(** * Properties *)

(** ** The result monad *)

Lemma bind_ok {A B : Type} (r : result A) (k : A -> result B) (b : B) :
  bind r k = Ok b -> exists a, r = Ok a /\ k a = Ok b.
Proof. destruct r; cbn; [eauto | discriminate]. Qed.

Lemma bind_ret {A : Type} (r : result A) : bind r Ok = r.
Proof. now destruct r. Qed.

Lemma mapM_Forall2 {A B : Type} (f : A -> result B) (l : list A) (l' : list B) :
  mapM f l = Ok l' <-> Forall2 (fun a b => f a = Ok b) l l'.
Proof.
  revert l'. induction l as [|a l IH]; intros l'; cbn.
  - split; [intros [= <-]; constructor | inversion 1; reflexivity].
  - split.
    + intros H. apply bind_ok in H as (b & Hb & H).
      apply bind_ok in H as (bs & Hbs & [= <-]).
      constructor; [assumption | now apply IH].
    + inversion 1 as [|? b ? bs Hb Hbs]; subst.
      rewrite Hb. cbn. apply IH in Hbs. now rewrite Hbs.
Qed.

Lemma mapM_map {A B C : Type} (f : B -> result C) (g : A -> B) (l : list A) :
  mapM f (map g l) = mapM (fun a => f (g a)) l.
Proof.
  induction l as [|a l IH]; cbn; [reflexivity|]. now rewrite IH.
Qed.

Lemma mapM_ext {A B : Type} (f g : A -> result B) (l : list A) :
  (forall a, f a = g a) -> mapM f l = mapM g l.
Proof.
  intros H. induction l as [|a l IH]; cbn; [reflexivity|]. now rewrite H, IH.
Qed.

(** ** Dicts *)

Lemma dict_get_set_same {V : Type} (k : string) (v : V) (d : list (string * V)) :
  dict_get k (dict_set k v d) = Some v.
Proof.
  induction d as [|[k' v'] d IH]; cbn.
  - now rewrite String.eqb_refl.
  - destruct (String.eqb k k') eqn:E; cbn; rewrite E; auto.
Qed.

Lemma dict_get_set_other {V : Type} (k k' : string) (v : V) (d : list (string * V)) :
  k' <> k -> dict_get k' (dict_set k v d) = dict_get k' d.
Proof.
  intros Hne. induction d as [|[k0 v0] d IH]; cbn.
  - apply String.eqb_neq in Hne. now rewrite Hne.
  - destruct (String.eqb k k0) eqn:E; cbn.
    + apply String.eqb_eq in E. subst k0.
      apply String.eqb_neq in Hne. now rewrite Hne.
    + now rewrite IH.
Qed.

Lemma dict_get_In {V : Type} (k : string) (v : V) (d : list (string * V)) :
  dict_get k d = Some v -> In (k, v) d.
Proof.
  induction d as [|[k' v'] d IH]; cbn; [discriminate|].
  destruct (String.eqb k k') eqn:E.
  - apply String.eqb_eq in E. intros [= ->]. left. now subst.
  - intros H. right. now apply IH.
Qed.

Lemma dict_set_fresh {V : Type} (k : string) (v : V) (d : list (string * V)) :
  ~ In k (keys d) -> dict_set k v d = (d ++ [(k, v)])%list.
Proof.
  induction d as [|[k' v'] d IH]; cbn; intros Hnin; [reflexivity|].
  destruct (String.eqb k k') eqn:E.
  - apply String.eqb_eq in E. subst. tauto.
  - rewrite IH; tauto.
Qed.

Lemma nodupb_NoDup (l : list string) : nodupb l = true -> NoDup l.
Proof.
  induction l as [|a l IH]; cbn; intros H; constructor.
  - apply andb_true_iff in H as [H _]. intros Hin.
    apply negb_true_iff in H.
    assert (Hex : existsb (String.eqb a) l = true).
    { apply existsb_exists. exists a. split; [assumption | apply String.eqb_refl]. }
    congruence.
  - apply IH. now apply andb_true_iff in H as [_ H].
Qed.

(** [map_values] keeps the keys and their order. *)
Lemma keys_map_values {A B : Type} (f : A -> B) (l : list (string * A)) :
  keys (map_values f l) = keys l.
Proof.
  unfold keys, map_values. rewrite map_map. reflexivity.
Qed.

Lemma map_values_compose {A B C : Type} (f : B -> C) (g : A -> B) (l : list (string * A)) :
  map_values f (map_values g l) = map_values (fun a => f (g a)) l.
Proof.
  unfold map_values. rewrite map_map. reflexivity.
Qed.

Lemma map_values_ext {A B : Type} (f g : A -> B) (l : list (string * A)) :
  Forall (fun kv => f (snd kv) = g (snd kv)) l -> map_values f l = map_values g l.
Proof.
  unfold map_values.
  induction 1 as [|[k a] l Ha _ IH]; cbn in *; [reflexivity|].
  now rewrite Ha, IH.
Qed.

(** ** Strings *)

Lemma length_app (x r : string) :
  String.length (x ++ r) = (String.length x + String.length r)%nat.
Proof. induction x; cbn; auto. Qed.

Lemma substring_app (x r : string) : substring 0 (String.length x) (x ++ r) = x.
Proof. induction x as [|c x IH]; cbn; [now destruct r | now rewrite IH]. Qed.

Lemma consumed_app (x r : string) : consumed (x ++ r) r = x.
Proof.
  unfold consumed. rewrite length_app.
  replace (String.length x + String.length r - String.length r)%nat
    with (String.length x) by lia.
  apply substring_app.
Qed.

Lemma strip_prefix_app (l s r : string) :
  strip_prefix l s = Some r <-> s = l ++ r.
Proof.
  revert s. induction l as [|a l IH]; intros s; cbn.
  - split; [now intros [= ->] | now intros ->].
  - destruct s as [|b s]; [split; discriminate|].
    destruct (Ascii.eqb a b) eqn:E.
    + apply Ascii.eqb_eq in E. subst b. rewrite IH.
      split; [now intros -> | now intros [= ->]].
    + apply Ascii.eqb_neq in E. split; [discriminate | intros [= ? ?]; congruence].
Qed.

Lemma strip_prefix_cons (a : ascii) (l s : string) :
  strip_prefix (String a l) s =
    match s with
    | String b s' => if Ascii.eqb a b then strip_prefix l s' else None
    | EmptyString => None
    end.
Proof. destruct s; reflexivity. Qed.

Lemma strip_prefix_nil (s : string) : strip_prefix "" s = Some s.
Proof. destruct s; reflexivity. Qed.

Lemma span_app (p : ascii -> bool) (s : string) :
  s = fst (span p s) ++ snd (span p s).
Proof.
  induction s as [|c s IH]; cbn; [reflexivity|].
  destruct (p c); [|reflexivity].
  destruct (span p s) as [x r]. cbn in *. now rewrite IH at 1.
Qed.

Lemma span_all (p : ascii -> bool) (s : string) :
  all_chars p (fst (span p s)) = true /\ starts_with p (snd (span p s)) = false.
Proof.
  induction s as [|c s IH]; cbn; [auto|].
  destruct (p c) eqn:E; cbn.
  - destruct (span p s) as [x r]. cbn in *. now rewrite E.
  - auto.
Qed.

Lemma span_unique (p : ascii -> bool) (x r : string) :
  all_chars p x = true -> starts_with p r = false -> span p (x ++ r) = (x, r).
Proof.
  intros Hx Hr. induction x as [|c x IH]; cbn in *.
  - destruct r as [|c r]; cbn in *; [reflexivity|]. now rewrite Hr.
  - apply andb_true_iff in Hx as [Hc Hx]. rewrite Hc, IH; auto.
Qed.

(** ** The matcher on the patterns of the module *)

(** A greedy [+] whose continuation rejects every string that begins with a
    character of the class reads the longest run and never backtracks. *)
Lemma plus_match_span {R : Type} (p : ascii -> bool) (k : string -> option R) (s : string) :
  (forall c r, p c = true -> k (String c r) = None) ->
  plus_match p s k =
    match span p s with
    | (EmptyString, _) => None
    | (_, rest) => k rest
    end.
Proof.
  intros Hk. induction s as [|c s IH]; cbn; [reflexivity|].
  destruct (p c) eqn:E; [|reflexivity].
  rewrite IH. pose proof (span_app p s) as Happ.
  pose proof (span_all p s) as [Hall _].
  destruct (span p s) as [x r]. cbn in Happ, Hall.
  destruct x as [|c' x].
  - cbn in Happ. now subst.
  - destruct (k r) eqn:Ekr; [reflexivity|].
    subst s. cbn in *. apply Hk.
    now apply andb_true_iff in Hall.
Qed.

Lemma num_char_not_space (c : ascii) : num_char c = true -> Ascii.eqb " " c = false.
Proof.
  intros H. destruct (Ascii.eqb " " c) eqn:E; [|reflexivity].
  apply Ascii.eqb_eq in E. subst c. discriminate.
Qed.

Lemma rmatch_token_space {R : Type} (i : nat) (rest : regex) (s : string)
  (caps : captures) (k : string -> captures -> option R) :
  rmatch (Seq (Group i (ClsPlus num_char)) (Seq (Lit " ") rest)) s caps k =
    match span num_char s with
    | (String _ _ as x, String " " r) => rmatch rest r (set_nth i (Some x) caps) k
    | _ => None
    end.
Proof.
  cbn [rmatch]. rewrite plus_match_span.
  2:{ intros c r Hc. rewrite strip_prefix_cons. now rewrite (num_char_not_space c Hc). }
  pose proof (span_app num_char s) as Hs.
  destruct (span num_char s) as [x r1]. cbn [fst snd] in Hs.
  destruct x as [|cx x]; [reflexivity|].
  destruct r1 as [|c1 r2]; [reflexivity|].
  rewrite strip_prefix_cons, strip_prefix_nil.
  destruct (Ascii.eqb " " c1) eqn:E1.
  - apply Ascii.eqb_eq in E1. subst c1. now rewrite Hs, consumed_app.
  - blank_or_not c1.
Qed.

Lemma rmatch_types {R : Type} (s : string) (caps : captures)
  (k : string -> captures -> option R) :
  (forall s' caps', k s' caps' <> None) ->
  rmatch (Group 2 (Alt (Lit "LINE") (Alt (Lit "CURVE") (Lit "OFFCURVE")))) s caps k =
    match first_type s with
    | Some (t, rest) => k rest (set_nth 2 (Some t) caps)
    | None => None
    end.
Proof.
  intros Hk. cbn [rmatch]. unfold first_type.
  destruct (strip_prefix "LINE" s) as [r|] eqn:E1.
  { apply strip_prefix_app in E1. subst s. rewrite consumed_app.
    destruct (k r _) eqn:Ek; [reflexivity | now apply Hk in Ek]. }
  destruct (strip_prefix "CURVE" s) as [r|] eqn:E2.
  { apply strip_prefix_app in E2. subst s. rewrite consumed_app.
    destruct (k r _) eqn:Ek; [reflexivity | now apply Hk in Ek]. }
  destruct (strip_prefix "OFFCURVE" s) as [r|] eqn:E3; [|reflexivity].
  apply strip_prefix_app in E3. subst s. now rewrite consumed_app.
Qed.

Lemma rmatch_smooth (rest : string) (caps : captures) :
  exists r,
    rmatch (Opt (Seq (Lit " ") (Group 3 (Lit "SMOOTH")))) rest caps
      (fun s' caps' => Some (caps', s')) =
    Some (match strip_prefix " SMOOTH" rest with
          | Some _ => set_nth 3 (Some "SMOOTH") caps
          | None => caps
          end, r).
Proof.
  cbn [rmatch].
  rewrite (strip_prefix_cons " " "SMOOTH"), (strip_prefix_cons " " "").
  destruct rest as [|c rest]; [eauto|].
  destruct (Ascii.eqb " " c); [|eauto].
  rewrite strip_prefix_nil.
  destruct (strip_prefix "SMOOTH" rest) as [r|] eqn:E; [|eauto].
  apply strip_prefix_app in E. subst rest. rewrite consumed_app. eauto.
Qed.

(** The groups of a match of the node pattern are those of the
    deterministic reading. *)
Lemma match_groups_node (s : string) :
  match_groups node_rx 4 (PStr s) =
    match node_split s with
    | Some (x, y, t, rest) => Ok [PStr x; PStr y; PStr t; smooth_of rest]
    | None => Err AttributeError
    end.
Proof.
  unfold match_groups, re_match, node_rx. cbn [seq_of alt_of repeat].
  rewrite rmatch_token_space. unfold node_split.
  destruct (span num_char s) as [[|cx x] [|c1 r2]]; try reflexivity.
  destruct (Ascii.eqb " " c1) eqn:E1; [|blank_or_not c1].
  apply Ascii.eqb_eq in E1. subst c1.
  rewrite rmatch_token_space.
  destruct (span num_char r2) as [[|cy y] [|c3 r4]]; try reflexivity.
  destruct (Ascii.eqb " " c3) eqn:E3; [|blank_or_not c3].
  apply Ascii.eqb_eq in E3. subst c3.
  change (rmatch (Seq ?a ?b) ?s ?c ?k)
    with (rmatch a s c (fun s' caps' => rmatch b s' caps' k)).
  rewrite rmatch_types.
  2:{ intros s' caps'. destruct (rmatch_smooth s' caps') as [r ->]. discriminate. }
  destruct (first_type r4) as [[t rest]|]; [|reflexivity].
  destruct (rmatch_smooth rest
              (set_nth 2 (Some t)
                 (set_nth 1 (Some (String cy y))
                    (set_nth 0 (Some (String cx x)) [None; None; None; None]))))
    as [r ->].
  unfold smooth_of. destruct (strip_prefix " SMOOTH" rest); reflexivity.
Qed.

Lemma first_type_form (s t rest : string) :
  first_type s = Some (t, rest) <-> s = t ++ rest /\ In t node_types.
Proof.
  unfold first_type, node_types. split.
  - destruct (strip_prefix "LINE" s) as [r|] eqn:E1.
    { intros [= <- <-]. apply strip_prefix_app in E1. cbn [In]. auto. }
    destruct (strip_prefix "CURVE" s) as [r|] eqn:E2.
    { intros [= <- <-]. apply strip_prefix_app in E2. cbn [In]. auto. }
    destruct (strip_prefix "OFFCURVE" s) as [r|] eqn:E3; [|discriminate].
    intros [= <- <-]. apply strip_prefix_app in E3. cbn [In]. auto.
  - intros [-> [<- | [<- | [<- | []]]]]; reflexivity.
Qed.

Lemma span_token (x r : string) :
  token x ->
  span num_char (x ++ String " " r) = (x, String " " r) /\ exists c x', x = String c x'.
Proof.
  intros [Hne Hall]. split.
  - now apply span_unique.
  - destruct x; [congruence | eauto].
Qed.

(** The deterministic reading succeeds exactly on the strings of the form
    [X Y TYPE ...]. *)
Lemma node_split_form (s x y t rest : string) :
  node_split s = Some (x, y, t, rest) <-> node_form s x y t rest.
Proof.
  unfold node_split, node_form. split.
  - pose proof (span_app num_char s) as Hs.
    pose proof (span_all num_char s) as [Hx _].
    destruct (span num_char s) as [[|cx x0] [|c1 r2]]; try discriminate.
    cbn [fst snd] in Hs, Hx.
    destruct c1 as [[] [] [] [] [] [] [] []]; try discriminate.
    pose proof (span_app num_char r2) as Hr2.
    pose proof (span_all num_char r2) as [Hy _].
    destruct (span num_char r2) as [[|cy y0] [|c3 r4]]; try discriminate.
    cbn [fst snd] in Hr2, Hy.
    destruct c3 as [[] [] [] [] [] [] [] []]; try discriminate.
    destruct (first_type r4) as [[t0 rest0]|] eqn:Et; [|discriminate].
    intros [= <- <- <- <-].
    apply first_type_form in Et as [Hr4 Hin].
    unfold token. repeat split; try discriminate; auto.
    rewrite Hs, Hr2, Hr4. cbn. reflexivity.
  - intros (-> & Hx & Hy & Hin).
    destruct (span_token x (y ++ " " ++ t ++ rest) Hx) as [Ex (cx & x' & ->)].
    change (" " ++ y ++ " " ++ t ++ rest) with (String " " (y ++ " " ++ t ++ rest)).
    rewrite Ex.
    destruct (span_token y (t ++ rest) Hy) as [Ey (cy & y' & ->)].
    change (" " ++ t ++ rest) with (String " " (t ++ rest)).
    rewrite Ey.
    assert (Et : first_type (t ++ rest) = Some (t, rest)) by now apply first_type_form.
    now rewrite Et.
Qed.

Lemma node_equation (s : string) :
  node (PStr s) =
    match node_split s with
    | Some (x, y, t, rest) =>
        vx <- num (PStr x) ;; vy <- num (PStr y) ;;
        Ok (PList [vx; vy; PStr t; smooth_of rest])
    | None => Err AttributeError
    end.
Proof.
  unfold node. rewrite match_groups_node.
  destruct (node_split s) as [[[[x y] t] rest]|]; reflexivity.
Qed.

(** ** Nodes *)

(** [num] fails on a string exactly when [float] rejects it or reads it as
    an infinity or a NaN, of which [int] can make no integer. *)
Lemma num_fails_iff (x : string) :
  fails (num (PStr x)) <->
  parse_float x = None \/
  (exists b, parse_float x = Some (S754_infinity b)) \/
  parse_float x = Some S754_nan.
Proof.
  unfold num, fails. cbn [float_of].
  destruct (parse_float x) as [f|]; cbn [bind]; [|split; eauto].
  destruct f as [b | b | | b m e]; cbn [trunc_float bind].
  - split.
    + intros [e H]. destruct (int_eq_float _ _) in H; discriminate.
    + intros [H | [[b' H] | H]]; discriminate.
  - split; eauto.
  - split; eauto.
  - split.
    + intros [e' H]. destruct (int_eq_float _ _) in H; discriminate.
    + intros [H | [[b' H] | H]]; discriminate.
Qed.

(** C3, as the code has it: on a string that begins with [X Y TYPE], two
    numeric tokens and a type among LINE, CURVE and OFFCURVE separated by
    single blanks, [node] returns the list of [num(X)], [num(Y)], the type
    and ["SMOOTH"] or [None], and it fails there exactly when [num] fails on
    [X] or on [Y]; a string of ASCII characters that does not begin with this
    form fails, with [AttributeError].  [node("100 200 LINE")] is the list
    [[100, 200, "LINE", None]] and [node("10.5 20 CURVE SMOOTH")] is
    [[10.5, 20, "CURVE", "SMOOTH"]]. *)
Theorem node_spec (s : string) :
  (forall x y t rest, node_form s x y t rest ->
     node (PStr s) = (vx <- num (PStr x) ;; vy <- num (PStr y) ;;
                      Ok (PList [vx; vy; PStr t; smooth_of rest])) /\
     (fails (node (PStr s)) <-> fails (num (PStr x)) \/ fails (num (PStr y)))) /\
  (ascii_string s -> (forall x y t rest, ~ node_form s x y t rest) ->
     node (PStr s) = Err AttributeError) /\
  node (PStr "100 200 LINE") = Ok (PList [PInt 100; PInt 200; PStr "LINE"; PNone]) /\
  (exists f, node (PStr "10.5 20 CURVE SMOOTH")
               = Ok (PList [PFloat f; PInt 20; PStr "CURVE"; PStr "SMOOTH"]) /\
             float_is f 21 2).
Proof.
  split; [|split; [|split]].
  - intros x y t rest Hform. apply node_split_form in Hform.
    rewrite node_equation, Hform. split; [reflexivity|].
    unfold fails.
    destruct (num (PStr x)) as [vx|ex]; cbn [bind].
    + destruct (num (PStr y)) as [vy|ey]; cbn [bind].
      * split; [intros [e H] | intros [[e H] | [e H]]]; discriminate.
      * split; [intros [e H]; right; now exists ey | intros _; now exists ey].
    + split; [intros [e H]; left; now exists ex | intros _; now exists ex].
  - intros _ Hno. rewrite node_equation.
    destruct (node_split s) as [[[[x y] t] rest]|] eqn:E; [|reflexivity].
    apply node_split_form in E. now apply Hno in E.
  - vm_compute. reflexivity.
  - eexists. split; [vm_compute; reflexivity | vm_compute; split; reflexivity].
Qed.

Lemma node_spec_witness :
  node_form "1 -2.5 OFFCURVE SMOOTH" "1" "-2.5" "OFFCURVE" " SMOOTH" /\
  node (PStr "1 -2.5 OFFCURVE SMOOTH")
    = (vx <- num (PStr "1") ;; vy <- num (PStr "-2.5") ;;
       Ok (PList [vx; vy; PStr "OFFCURVE"; smooth_of " SMOOTH"])) /\
  ascii_string "100,200 LINE" /\
  (forall x y t rest, ~ node_form "100,200 LINE" x y t rest) /\
  node (PStr "100,200 LINE") = Err AttributeError.
Proof.
  assert (Hform : node_form "1 -2.5 OFFCURVE SMOOTH" "1" "-2.5" "OFFCURVE" " SMOOTH").
  { unfold node_form, token, node_types. cbn.
    repeat split; try discriminate; auto. }
  assert (Hascii : ascii_string "100,200 LINE") by reflexivity.
  assert (Hno : forall x y t rest, ~ node_form "100,200 LINE" x y t rest).
  { intros x y t rest H. apply node_split_form in H. vm_compute in H. discriminate H. }
  split; [exact Hform|]. split.
  - exact (proj1 (proj1 (node_spec "1 -2.5 OFFCURVE SMOOTH")
                    "1" "-2.5" "OFFCURVE" " SMOOTH" Hform)).
  - split; [exact Hascii|]. split; [exact Hno|].
    exact (proj1 (proj2 (node_spec "100,200 LINE")) Hascii Hno).
Defined.

(** C3, as stated, fails: the string ["1e999 2 LINE"] has the form
    [X Y TYPE], yet [node] fails on it, because [float("1e999")] is infinite
    and [int] of an infinite float raises [OverflowError]. *)
Lemma node_fails_on_well_formed_string :
  ~ (fails (node (PStr "1e999 2 LINE")) <->
     ~ exists x y t rest, node_form "1e999 2 LINE" x y t rest).
Proof.
  intros [Hfail _]. apply Hfail.
  - exists OverflowError. vm_compute. reflexivity.
  - exists "1e999", "2", "LINE", "". apply node_split_form. vm_compute. reflexivity.
Qed.

(** A token of the class need not be a number at all: [float("1.2.3")]
    raises [ValueError]. *)
Example node_rejects_malformed_number :
  node_form "1.2.3 4 LINE" "1.2.3" "4" "LINE" "" /\
  node (PStr "1.2.3 4 LINE") = Err ValueError.
Proof.
  split.
  - apply node_split_form. vm_compute. reflexivity.
  - vm_compute. reflexivity.
Qed.

(** Text after the match is ignored, as [re.match] anchors the start only. *)
Example node_ignores_trailing_text :
  node (PStr "1 2 LINE and more") = Ok (PList [PInt 1; PInt 2; PStr "LINE"; PNone]).
Proof. vm_compute. reflexivity. Qed.

(** ** Vectors *)

(** C4: [vector("{1, 2.5}", 2)] is the list of the int [1] and the float
    [2.5], and [vector("{1,2,3}", 2)] fails; so does [vector("{1, 2, 3}", 2)],
    where only the arity is wrong. *)
Theorem vector_examples :
  (exists f, vector (PStr "{1, 2.5}") 2 = Ok (PList [PInt 1; PFloat f]) /\ float_is f 5 2) /\
  vector (PStr "{1,2,3}") 2 = Err AttributeError /\
  vector (PStr "{1, 2, 3}") 2 = Err AttributeError.
Proof.
  split; [|split].
  - eexists. split.
    + vm_compute. reflexivity.
    + vm_compute. split; reflexivity.
  - vm_compute. reflexivity.
  - vm_compute. reflexivity.
Qed.

(** ** The validated integers *)

(** C5: on a string that [int] reads as [z], [descender_val] returns [z] when
    [z] is strictly negative and fails its assertion when [z >= 0]; so
    [descender_val("-10")] is [-10] and [descender_val("10")] fails. *)
Theorem descender_val_negative (s : string) (z : Z)
  (Hint : int_of (PStr s) = Ok z) :
  (z < 0 -> descender_val (PStr s) = Ok (PInt z)) /\
  (0 <= z -> descender_val (PStr s) = Err AssertionError) /\
  descender_val (PStr "-10") = Ok (PInt (-10)) /\
  descender_val (PStr "10") = Err AssertionError.
Proof.
  unfold descender_val. rewrite Hint. cbn [bind].
  repeat split.
  - intros Hneg. apply Z.ltb_lt in Hneg. now rewrite Hneg.
  - intros Hpos. apply Z.ltb_ge in Hpos. now rewrite Hpos.
Qed.

Lemma descender_val_negative_witness :
  int_of (PStr " -250 ") = Ok (-250) /\
  descender_val (PStr " -250 ") = Ok (PInt (-250)).
Proof.
  split.
  - reflexivity.
  - apply (proj1 (descender_val_negative " -250 " (-250) eq_refl)). lia.
Defined.

(** C6: on a string that [int] reads as [z], [version_minor] returns [z] when
    [0 <= z <= 999] and fails its assertion otherwise; so
    [version_minor("500")] is [500] and [version_minor("1000")] fails. *)
Theorem version_minor_range (s : string) (z : Z)
  (Hint : int_of (PStr s) = Ok z) :
  (0 <= z <= 999 -> version_minor (PStr s) = Ok (PInt z)) /\
  (z < 0 \/ 999 < z -> version_minor (PStr s) = Err AssertionError) /\
  version_minor (PStr "500") = Ok (PInt 500) /\
  version_minor (PStr "1000") = Err AssertionError.
Proof.
  unfold version_minor. rewrite Hint. cbn [bind].
  repeat split.
  - intros [Hlo Hhi]. apply Z.leb_le in Hlo, Hhi. now rewrite Hlo, Hhi.
  - intros [Hlt | Hgt].
    + apply Z.leb_gt in Hlt. now rewrite Hlt.
    + apply Z.leb_gt in Hgt. rewrite Hgt. now rewrite andb_false_r.
Qed.

Lemma version_minor_range_witness :
  int_of (PStr "999") = Ok 999 /\
  version_minor (PStr "999") = Ok (PInt 999).
Proof.
  split.
  - reflexivity.
  - apply (proj1 (version_minor_range "999" 999 eq_refl)). lia.
Defined.

(** ** Casting twice *)

(** C8: casting is not idempotent: [glyphs_datetime] succeeds on the string
    ["2015-06-08 08:54:28 +0000"] and fails on the datetime it returns; it
    fails on every value it has returned. *)
Theorem glyphs_datetime_not_idempotent :
  (exists s v, glyphs_datetime (PStr s) = Ok v /\ fails (glyphs_datetime v)) /\
  (forall x v, glyphs_datetime x = Ok v -> glyphs_datetime v = Err AttributeError).
Proof.
  split.
  - exists "2015-06-08 08:54:28 +0000", (PDatetime 2015 6 8 8 54 28).
    split.
    + vm_compute. reflexivity.
    + exists AttributeError. reflexivity.
  - intros x v Hx. destruct x; cbn in Hx; try discriminate.
    unfold strptime in Hx.
    destruct (re_match strptime_rx 6 _) as [[caps rest]|]; [|discriminate].
    destruct caps as [|gY [|gm [|gd [|gH [|gM [|gS [|? ?]]]]]]]; try discriminate.
    destruct rest; [|discriminate].
    destruct (group_int gY), (group_int gm), (group_int gd),
             (group_int gH), (group_int gM), (group_int gS); try discriminate.
    destruct (_ && _); [|discriminate].
    injection Hx as <-. reflexivity.
Qed.

Lemma glyphs_datetime_not_idempotent_witness :
  glyphs_datetime (PStr "2015-06-08 08:54:28 +0000") = Ok (PDatetime 2015 6 8 8 54 28) /\
  glyphs_datetime (PDatetime 2015 6 8 8 54 28) = Err AttributeError.
Proof.
  split.
  - vm_compute. reflexivity.
  - apply (proj2 glyphs_datetime_not_idempotent (PStr "2015-06-08 08:54:28 +0000")).
    vm_compute. reflexivity.
Defined.

(** ** Kerning *)

Lemma kerning_levels :
  kerning_glyph_map = cast_level py_int /\
  kerning_master_map = cast_level kerning_glyph_map /\
  kerning = cast_level kerning_master_map.
Proof. repeat split. Qed.

Section Level.
Context {A B : Type}.
Variables (emb : A -> value) (emb' : B -> value).
Variable f : value -> result value.

Lemma foldM_level_ok (h : A -> B) (l : list (string * A)) (acc : list (string * value)) :
  NoDup (keys acc ++ keys l)%list ->
  Forall (fun kv => f (emb (snd kv)) = Ok (emb' (h (snd kv)))) l ->
  foldM (level_body f) (map_values emb l) acc =
    Ok (acc ++ map_values (fun a => emb' (h a)) l)%list.
Proof.
  revert acc. induction l as [|[k a] l IH]; intros acc Hnd Hall; cbn.
  - now rewrite app_nil_r.
  - inversion Hall as [|? ? Ha Hl]; subst. cbn in Ha. rewrite Ha. cbn.
    assert (Hk : ~ In k (keys acc)).
    { intros Hin. apply NoDup_remove_2 in Hnd. apply Hnd.
      apply in_or_app. now left. }
    rewrite (dict_set_fresh _ _ _ Hk).
    rewrite IH; auto.
    + now rewrite <- app_assoc.
    + unfold keys in *. rewrite map_app. cbn. rewrite <- app_assoc. exact Hnd.
Qed.

Lemma cast_level_ok (h : A -> B) (l : list (string * A)) :
  NoDup (keys l) ->
  Forall (fun kv => f (emb (snd kv)) = Ok (emb' (h (snd kv)))) l ->
  cast_level f (PDict (map_values emb l)) =
    Ok (PDict (map_values (fun a => emb' (h a)) l)).
Proof.
  intros Hnd Hall. unfold cast_level. cbn [items bind].
  rewrite (foldM_level_ok h); auto.
Qed.

Lemma foldM_level_err (e : exc) (l : list (string * A)) (acc : list (string * value)) :
  Forall (fun kv => f (emb (snd kv)) = Err e \/ exists v, f (emb (snd kv)) = Ok v) l ->
  Exists (fun kv => f (emb (snd kv)) = Err e) l ->
  foldM (level_body f) (map_values emb l) acc = Err e.
Proof.
  revert acc. induction l as [|[k a] l IH]; intros acc Hall Hex.
  - inversion Hex.
  - inversion Hall as [|? ? Ha Hl]; subst. cbn in *.
    destruct Ha as [Ha | [v Ha]]; rewrite Ha; cbn; [reflexivity|].
    apply IH; auto.
    inversion Hex as [? ? Hhd | ? ? Htl]; subst; [|assumption].
    cbn in Hhd. congruence.
Qed.

Lemma foldM_level_outcome (e : exc) (l : list (string * A)) (acc : list (string * value)) :
  Forall (fun kv => f (emb (snd kv)) = Err e \/ exists v, f (emb (snd kv)) = Ok v) l ->
  foldM (level_body f) (map_values emb l) acc = Err e \/
  exists new, foldM (level_body f) (map_values emb l) acc = Ok new.
Proof.
  revert acc. induction l as [|[k a] l IH]; intros acc Hall; cbn.
  - right. eauto.
  - inversion Hall as [|? ? Ha Hl]; subst. cbn in Ha.
    destruct Ha as [Ha | [v Ha]]; rewrite Ha; cbn; [now left|].
    apply IH; auto.
Qed.

Lemma cast_level_err (e : exc) (l : list (string * A)) :
  Forall (fun kv => f (emb (snd kv)) = Err e \/ exists v, f (emb (snd kv)) = Ok v) l ->
  Exists (fun kv => f (emb (snd kv)) = Err e) l ->
  cast_level f (PDict (map_values emb l)) = Err e.
Proof.
  intros Hall Hex. unfold cast_level. cbn [items bind].
  now rewrite (foldM_level_err e).
Qed.

Lemma cast_level_outcome (e : exc) (l : list (string * A)) :
  Forall (fun kv => f (emb (snd kv)) = Err e \/ exists v, f (emb (snd kv)) = Ok v) l ->
  cast_level f (PDict (map_values emb l)) = Err e \/
  exists v, cast_level f (PDict (map_values emb l)) = Ok v.
Proof.
  intros Hall. unfold cast_level. cbn [items bind].
  destruct (foldM_level_outcome e l [] Hall) as [H | [new H]]; rewrite H; cbn; eauto.
Qed.
End Level.

Lemma py_int_int_string (s : string) :
  int_string s -> py_int (PStr s) = Ok (PInt (to_int s)).
Proof.
  intros [z Hz]. unfold py_int, to_int. cbn. now rewrite Hz.
Qed.

Lemma py_int_not_int_string (s : string) :
  parse_int 10 s = None -> py_int (PStr s) = Err ValueError.
Proof.
  intros Hz. unfold py_int. cbn. now rewrite Hz.
Qed.

Lemma py_int_outcome (s : string) :
  py_int (PStr s) = Err ValueError \/ exists v, py_int (PStr s) = Ok v.
Proof.
  unfold py_int. cbn. destruct (parse_int 10 s); cbn; eauto.
Qed.

Lemma kerning_glyph_map_ok (l : list (string * string)) :
  NoDup (keys l) ->
  Forall (fun kv => int_string (snd kv)) l ->
  kerning_glyph_map (glyph_dict l) = Ok (PDict (map_values PInt (map_values to_int l))).
Proof.
  intros Hnd Hall. destruct kerning_levels as [-> _].
  rewrite map_values_compose. unfold glyph_dict.
  apply (cast_level_ok PStr PInt py_int to_int); auto.
  eapply Forall_impl; [|exact Hall]. intros kv. apply py_int_int_string.
Qed.

Lemma kerning_glyph_map_outcome (l : list (string * string)) :
  kerning_glyph_map (glyph_dict l) = Err ValueError \/
  exists v, kerning_glyph_map (glyph_dict l) = Ok v.
Proof.
  destruct kerning_levels as [-> _]. apply cast_level_outcome.
  apply Forall_forall. intros kv _. apply py_int_outcome.
Qed.

Lemma kerning_glyph_map_err (l : list (string * string)) :
  Exists (fun kv => parse_int 10 (snd kv) = None) l ->
  kerning_glyph_map (glyph_dict l) = Err ValueError.
Proof.
  intros Hex. destruct kerning_levels as [-> _]. apply cast_level_err.
  - apply Forall_forall. intros kv _. apply py_int_outcome.
  - eapply Exists_impl; [|exact Hex]. intros kv. apply py_int_not_int_string.
Qed.

Lemma kerning_master_map_ok (m : list (string * list (string * string))) :
  NoDup (keys m) ->
  Forall (fun l => NoDup (keys (snd l))) m ->
  Forall (fun l => Forall (fun kv => int_string (snd kv)) (snd l)) m ->
  kerning_master_map (master_dict m) =
    Ok (PDict (map_values (fun l => PDict (map_values PInt l))
                          (map_values (map_values to_int) m))).
Proof.
  intros Hnd Hnds Hall. destruct kerning_levels as (_ & -> & _).
  rewrite map_values_compose. unfold master_dict.
  apply (cast_level_ok glyph_dict (fun l => PDict (map_values PInt l))
           kerning_glyph_map (map_values to_int)); auto.
  rewrite Forall_forall in *. intros l Hl.
  apply kerning_glyph_map_ok; auto.
Qed.

Lemma kerning_master_map_outcome (m : list (string * list (string * string))) :
  kerning_master_map (master_dict m) = Err ValueError \/
  exists v, kerning_master_map (master_dict m) = Ok v.
Proof.
  destruct kerning_levels as (_ & -> & _). apply cast_level_outcome.
  apply Forall_forall. intros kv _. apply kerning_glyph_map_outcome.
Qed.

Lemma kerning_master_map_err (m : list (string * list (string * string))) :
  Exists (fun l => Exists (fun kv => parse_int 10 (snd kv) = None) (snd l)) m ->
  kerning_master_map (master_dict m) = Err ValueError.
Proof.
  intros Hex. destruct kerning_levels as (_ & -> & _). apply cast_level_err.
  - apply Forall_forall. intros kv _. apply kerning_glyph_map_outcome.
  - eapply Exists_impl; [|exact Hex]. intros kv. apply kerning_glyph_map_err.
Qed.

Lemma grid_value_str (g : grid string) :
  grid_value PStr g = PDict (map_values master_dict g).
Proof. reflexivity. Qed.

(** C7: [kerning] maps a grid of integer strings to the grid with the same
    keys at every level and each leaf replaced by its int value, and fails
    when one leaf is not an integer string;
    [{"m1": {"A": {"B": "10"}}}] becomes [{"m1": {"A": {"B": 10}}}]. *)
Theorem kerning_grid (g : grid string) (Hkeys : distinct_keys g) :
  (Forall int_string (grid_leaves g) ->
   exists gz : grid Z,
     kerning (grid_value PStr g) = Ok (grid_value PInt gz) /\
     grid_map Some gz = grid_map (parse_int 10) g) /\
  (Exists (fun s => parse_int 10 s = None) (grid_leaves g) ->
   kerning (grid_value PStr g) = Err ValueError) /\
  kerning (grid_value PStr [("m1", [("A", [("B", "10")])])])
    = Ok (grid_value PInt [("m1", [("A", [("B", 10)])])]).
Proof.
  destruct Hkeys as [Hnd Hnds].
  split; [|split].
  - intros Hleaves. unfold grid_leaves in Hleaves.
    rewrite Forall_flat_map in Hleaves.
    assert (Hall : Forall (fun m => Forall (fun l => Forall (fun kv => int_string (snd kv))
                                                        (snd l)) (snd m)) g).
    { eapply Forall_impl; [|exact Hleaves]. intros m Hm.
      rewrite Forall_flat_map in Hm.
      eapply Forall_impl; [|exact Hm]. intros l Hl.
      now rewrite Forall_map in Hl. }
    exists (grid_map to_int g). split.
    + rewrite grid_value_str. destruct kerning_levels as (_ & _ & ->).
      unfold grid_value, grid_map. rewrite map_values_compose.
      apply (cast_level_ok master_dict
               (fun m => PDict (map_values (fun l => PDict (map_values PInt l)) m))
               kerning_master_map (map_values (map_values to_int))); auto.
      rewrite Forall_forall in *. intros m Hm.
      destruct (Hnds m Hm) as [Hm1 Hm2].
      apply kerning_master_map_ok; auto.
    + unfold grid_map. rewrite map_values_compose.
      apply map_values_ext.
      eapply Forall_impl; [|exact Hall]. intros m Hm.
      rewrite map_values_compose. apply map_values_ext.
      eapply Forall_impl; [|exact Hm]. intros l Hl.
      rewrite map_values_compose. apply map_values_ext.
      eapply Forall_impl; [|exact Hl]. intros kv [z Hz].
      unfold to_int. now rewrite Hz.
  - intros Hbad. unfold grid_leaves in Hbad.
    rewrite Exists_flat_map in Hbad.
    rewrite grid_value_str. destruct kerning_levels as (_ & _ & ->).
    apply cast_level_err.
    + apply Forall_forall. intros kv _. apply kerning_master_map_outcome.
    + eapply Exists_impl; [|exact Hbad]. intros m Hm.
      apply kerning_master_map_err.
      rewrite Exists_flat_map in Hm.
      eapply Exists_impl; [|exact Hm]. intros l Hl.
      now rewrite Exists_map in Hl.
  - vm_compute. reflexivity.
Qed.

Lemma kerning_grid_witness :
  distinct_keys [("m1", [("A", [("B", "10"); ("C", "-5")])])] /\
  (exists gz : grid Z,
     kerning (grid_value PStr [("m1", [("A", [("B", "10"); ("C", "-5")])])])
       = Ok (grid_value PInt gz) /\
     grid_map Some gz = grid_map (parse_int 10) [("m1", [("A", [("B", "10"); ("C", "-5")])])]) /\
  kerning (grid_value PStr [("m1", [("A", [("B", "10"); ("C", "x")])])]) = Err ValueError.
Proof.
  assert (Hk : forall b : string,
             distinct_keys [("m1", [("A", [("B", "10"); ("C", b)])])]).
  { intros b. split.
    - repeat constructor; cbn; tauto.
    - repeat constructor; cbn; try tauto.
      intros [H | []]. discriminate. }
  split; [|split].
  - apply Hk.
  - apply (proj1 (kerning_grid _ (Hk "-5"))).
    repeat constructor; eexists; vm_compute; reflexivity.
  - apply (proj1 (proj2 (kerning_grid _ (Hk "x")))).
    vm_compute. apply Exists_cons_tl. apply Exists_cons_hd. reflexivity.
Defined.

(** ** The caster *)

Lemma cast_entry_unfold (cur_type : schema) (key : string) (data : value) :
  cast_entry cur_type key data =
    (present <- contains data key ;;
     if negb present then
       match dict_get key DEFAULTS with
       | Some dflt => setitem data key dflt
       | None => Ok (exhausted data)
       end
     else
       match cur_type with
       | Sub fields =>
           v <- getitem data key ;;
           recs <- for_each v (cast_fields fields) ;;
           setitem data key (with_records v recs)
       | Conv f =>
           v <- getitem data key ;;
           v' <- f v ;;
           setitem data key v'
       end).
Proof. destruct cur_type; reflexivity. Qed.

Lemma cast_entry_absent (cur_type : schema) (key : string) (d : list (string * value)) :
  dict_get key d = None ->
  cast_entry cur_type key (PDict d) =
    Ok (PDict match dict_get key DEFAULTS with
              | Some dflt => dict_set key dflt d
              | None => d
              end).
Proof.
  intros Habs. rewrite cast_entry_unfold. cbn [contains bind]. unfold dict_mem.
  rewrite Habs. cbn [negb]. destruct (dict_get key DEFAULTS); reflexivity.
Qed.

Lemma cast_entry_present (cur_type : schema) (key : string) (d : list (string * value))
  (v : value) :
  dict_get key d = Some v ->
  cast_entry cur_type key (PDict d) =
    match cur_type with
    | Sub fields =>
        recs <- for_each v (cast_fields fields) ;;
        Ok (PDict (dict_set key (with_records v recs) d))
    | Conv f =>
        v' <- f v ;; Ok (PDict (dict_set key v' d))
    end.
Proof.
  intros Hv. rewrite cast_entry_unfold. cbn [contains bind]. unfold dict_mem.
  rewrite Hv. cbn [negb getitem]. rewrite Hv. cbn [bind].
  destruct cur_type; reflexivity.
Qed.

(** One entry of the schema changes [data] at its own key only. *)
Lemma cast_entry_frame (cur_type : schema) (key : string) (d : list (string * value))
  (data' : value) :
  cast_entry cur_type key (PDict d) = Ok data' ->
  exists d', data' = PDict d' /\
             forall k, k <> key -> dict_get k d' = dict_get k d.
Proof.
  destruct (dict_get key d) as [v|] eqn:Hv.
  - rewrite (cast_entry_present _ _ _ _ Hv).
    destruct cur_type as [f | fields]; intros H;
      apply bind_ok in H as (x & _ & [= <-]);
      eexists; (split; [reflexivity|]); intros k Hk; now apply dict_get_set_other.
  - rewrite (cast_entry_absent _ _ _ Hv).
    destruct (dict_get key DEFAULTS) as [dflt|]; intros [= <-];
      eexists; (split; [reflexivity|]); intros k Hk;
      [now apply dict_get_set_other | reflexivity].
Qed.

(** The loop changes [data] at the keys of the schema only. *)
Lemma cast_fields_frame (types : list (string * schema)) (d : list (string * value))
  (data' : value) :
  cast_fields types (PDict d) = Ok data' ->
  exists d', data' = PDict d' /\
             forall k, ~ In k (keys types) -> dict_get k d' = dict_get k d.
Proof.
  revert d. induction types as [|[key cur_type] types IH]; intros d; cbn [cast_fields].
  - intros [= <-]. eauto.
  - intros H. apply bind_ok in H as (data1 & H1 & H2).
    apply cast_entry_frame in H1 as (d1 & -> & Hd1).
    apply IH in H2 as (d' & -> & Hd').
    exists d'. split; [reflexivity|]. intros k Hk. cbn in Hk.
    rewrite Hd' by tauto. apply Hd1. intros ->. tauto.
Qed.

(** A successful run of the loop passes through the entry of each key, on a
    dict that still has the initial value at that key, and nothing after that
    entry touches the key again. *)
Lemma cast_fields_entry (types : list (string * schema)) (key : string)
  (cur_type : schema) (d : list (string * value)) (data' : value) :
  NoDup (keys types) ->
  In (key, cur_type) types ->
  cast_fields types (PDict d) = Ok data' ->
  exists d1 d2 d',
    data' = PDict d' /\
    cast_entry cur_type key (PDict d1) = Ok (PDict d2) /\
    dict_get key d1 = dict_get key d /\
    dict_get key d' = dict_get key d2.
Proof.
  revert d. induction types as [|[k0 t0] types IH]; intros d Hnd Hin; [destruct Hin|].
  cbn [cast_fields]. intros H. apply bind_ok in H as (data1 & H1 & H2).
  pose proof H1 as H1'. apply cast_entry_frame in H1' as (dA & -> & HdA).
  cbn in Hnd. inversion Hnd as [|? ? Hk0 Hnd']; subst.
  destruct Hin as [[= -> ->] | Hin].
  - apply cast_fields_frame in H2 as (d' & -> & Hd').
    exists d, dA, d'. repeat split; auto.
  - assert (Hne : key <> k0).
    { intros ->. apply Hk0. apply (in_map fst) in Hin. exact Hin. }
    destruct (IH dA Hnd' Hin H2) as (d1 & d2 & d' & -> & Hstep & Hd1 & Hd2).
    exists d1, d2, d'. repeat split; auto.
    rewrite Hd1. now apply HdA.
Qed.

Lemma cast_fields_absent (types : list (string * schema)) (d : list (string * value))
  (key : string) (cur_type : schema) (data' : value) :
  In (key, cur_type) types -> NoDup (keys types) -> dict_get key d = None ->
  cast_fields types (PDict d) = Ok data' ->
  exists d', data' = PDict d' /\ dict_get key d' = dict_get key DEFAULTS.
Proof.
  intros Hschema Hnodup Habsent Hrun.
  destruct (cast_fields_entry _ _ _ _ _ Hnodup Hschema Hrun)
    as (d1 & d2 & d' & -> & Hstep & Hd1 & Hd2).
  exists d'. split; [reflexivity|].
  rewrite Habsent in Hd1. rewrite (cast_entry_absent _ _ _ Hd1) in Hstep.
  rewrite Hd2.
  destruct (dict_get key DEFAULTS) as [dflt|]; injection Hstep as <-.
  - apply dict_get_set_same.
  - assumption.
Qed.

Lemma DEFAULTS_table (key : string) :
  dict_get key DEFAULTS =
    if existsb (String.eqb key) default_keys then Some (PInt 100) else None.
Proof.
  unfold DEFAULTS, default_keys. cbn [dict_get existsb].
  repeat (destruct (String.eqb key _); [reflexivity|]). reflexivity.
Qed.

Section CastData.
Variable repr : value -> string.
Variable dict_of : value -> result value.

(** C1: for a key of the schema that the dict [d] lacks, the loop body sets
    [d[key]] to the default when the key has one and leaves [d] as it is
    otherwise, without an exception; after a cast that succeeds [d[key]] is
    that default, or still absent.  The defaults are [100] for
    [interpolationWeight], [interpolationWidth], [widthValue] and
    [weightValue] and nothing else.  In a document cast with the full schema
    each fontMaster record that lacked [weightValue] has [weightValue] 100. *)
Theorem cast_data_absent_key
  (types : list (string * schema)) (d : list (string * value))
  (key : string) (cur_type : schema)
  (Hschema : In (key, cur_type) types)
  (Hnodup : NoDup (keys types))
  (Habsent : dict_get key d = None) :
  cast_entry cur_type key (PDict d) =
    Ok (PDict match dict_get key DEFAULTS with
              | Some dflt => dict_set key dflt d
              | None => d
              end) /\
  (forall data', cast_data repr dict_of (PDict d) (Some types) = Ok data' ->
     exists d', data' = PDict d' /\ dict_get key d' = dict_get key DEFAULTS) /\
  dict_get key DEFAULTS =
    (if existsb (String.eqb key) default_keys then Some (PInt 100) else None) /\
  (forall doc masters doc',
     dict_get "fontMaster" doc = Some (PList masters) ->
     cast_data repr dict_of (PDict doc) None = Ok doc' ->
     exists d' masters',
       doc' = PDict d' /\
       dict_get "fontMaster" d' = Some (PList masters') /\
       Forall2 (fun m m' =>
                  forall r, m = PDict r -> dict_get "weightValue" r = None ->
                    exists r', m' = PDict r' /\
                               dict_get "weightValue" r' = Some (PInt 100))
               masters masters').
Proof.
  split; [|split; [|split]].
  - now apply cast_entry_absent.
  - intros data' Hrun. now apply (cast_fields_absent types d key cur_type).
  - apply DEFAULTS_table.
  - intros doc masters doc' Hfm Hrun. unfold cast_data, schema_of in Hrun.
    set (gts := get_type_structure repr dict_of) in *.
    set (fm := sub_schema "fontMaster" gts).
    assert (Hin : In ("fontMaster", Sub fm) gts).
    { apply dict_get_In. reflexivity. }
    assert (Hnd : NoDup (keys gts)).
    { apply nodupb_NoDup. vm_compute. reflexivity. }
    destruct (cast_fields_entry _ _ _ _ _ Hnd Hin Hrun)
      as (d1 & d2 & d' & -> & Hstep & Hd1 & Hd2).
    rewrite Hfm in Hd1. rewrite (cast_entry_present _ _ _ _ Hd1) in Hstep.
    apply bind_ok in Hstep as (recs & Hrecs & [= <-]).
    exists d', recs. split; [reflexivity|]. split.
    + rewrite Hd2. apply dict_get_set_same.
    + cbn [for_each] in Hrecs. apply mapM_Forall2 in Hrecs.
      eapply Forall2_impl; [|exact Hrecs].
      intros m m' Hm r -> Hr.
      apply (cast_fields_absent fm r "weightValue" (Conv py_int)) in Hm; auto.
      * apply dict_get_In. reflexivity.
      * apply nodupb_NoDup. vm_compute. reflexivity.
Qed.

(** C2: for a key of the schema that the dict [d] has, with value [v].
    Under a sub-schema the loop body runs [cast_data] with that sub-schema on
    every record [v] yields, in order, and fails when one of these casts
    fails; after a cast that succeeds [d[key]] is the list of the records so
    cast when [v] is a list of records (a [map] iterator is left exhausted,
    a dict or a string as it was).  Under a converter [f] the loop body stores
    [f(v)] at [d[key]], and after a cast that succeeds [d[key]] is [f(v)]. *)
Theorem cast_data_present_key
  (types : list (string * schema)) (d : list (string * value))
  (key : string) (cur_type : schema) (v : value)
  (Hschema : In (key, cur_type) types)
  (Hnodup : NoDup (keys types))
  (Hpresent : dict_get key d = Some v) :
  cast_entry cur_type key (PDict d) =
    match cur_type with
    | Sub fields =>
        recs <- for_each v (fun cur_data => cast_data repr dict_of cur_data (Some fields)) ;;
        Ok (PDict (dict_set key
                     match v with
                     | PList _ => PList recs
                     | PMap f _ => PMap f (PList [])
                     | _ => v
                     end d))
    | Conv f =>
        v' <- f v ;; Ok (PDict (dict_set key v' d))
    end /\
  forall data', cast_data repr dict_of (PDict d) (Some types) = Ok data' ->
    exists d', data' = PDict d' /\
      match cur_type with
      | Sub fields =>
          exists recs,
            for_each v (fun cur_data => cast_data repr dict_of cur_data (Some fields))
              = Ok recs /\
            match v with
            | PList l =>
                Forall2 (fun r r' => cast_data repr dict_of r (Some fields) = Ok r') l recs /\
                dict_get key d' = Some (PList recs)
            | PMap f _ => dict_get key d' = Some (PMap f (PList []))
            | _ => dict_get key d' = Some v
            end
      | Conv f =>
          exists v', f v = Ok v' /\ dict_get key d' = Some v'
      end.
Proof.
  split.
  - rewrite (cast_entry_present _ _ _ _ Hpresent).
    destruct cur_type as [f | fields]; [reflexivity|].
    unfold cast_data, schema_of.
    change (fun cur_data => cast_fields fields cur_data) with (cast_fields fields).
    destruct (for_each v (cast_fields fields)) as [recs|e]; [|reflexivity].
    cbn [bind]. destruct v; reflexivity.
  - intros data' Hrun. unfold cast_data, schema_of in Hrun.
    destruct (cast_fields_entry _ _ _ _ _ Hnodup Hschema Hrun)
      as (d1 & d2 & d' & -> & Hstep & Hd1 & Hd2).
    exists d'. split; [reflexivity|].
    rewrite Hpresent in Hd1.
    rewrite (cast_entry_present _ _ _ _ Hd1) in Hstep.
    destruct cur_type as [f | fields].
    + apply bind_ok in Hstep as (v' & Hf & [= <-]).
      exists v'. split; [assumption|]. rewrite Hd2. apply dict_get_set_same.
    + apply bind_ok in Hstep as (recs & Hrecs & [= <-]).
      exists recs. split; [exact Hrecs|].
      rewrite Hd2, dict_get_set_same.
      destruct v; try reflexivity.
      split; [|reflexivity].
      cbn [for_each] in Hrecs. now apply mapM_Forall2 in Hrecs.
Qed.

(** C10: a key that is not among the keys of the schema has, after a cast
    that succeeds, the value it had before, or is still absent. *)
Theorem cast_data_frame
  (types : option (list (string * schema))) (d : list (string * value))
  (key : string) (data' : value)
  (Hout : ~ In key (keys (schema_of repr dict_of types)))
  (Hrun : cast_data repr dict_of (PDict d) types = Ok data') :
  exists d', data' = PDict d' /\ dict_get key d' = dict_get key d.
Proof.
  unfold cast_data in Hrun. apply cast_fields_frame in Hrun as (d' & -> & Hd').
  exists d'. split; [reflexivity|]. now apply Hd'.
Qed.
End CastData.

Lemma cast_data_absent_key_witness :
  dict_get "weightValue" [("id", PStr "m1")] = None /\
  cast_data repr0 dict_of0 (PDict [("id", PStr "m1")])
    (Some [("id", Conv default); ("weightValue", Conv py_int)])
    = Ok (PDict [("id", PStr "m1"); ("weightValue", PInt 100)]) /\
  exists d',
    PDict [("id", PStr "m1"); ("weightValue", PInt 100)] = PDict d' /\
    dict_get "weightValue" d' = Some (PInt 100).
Proof.
  split; [reflexivity|]. split; [reflexivity|].
  apply (proj1 (proj2 (cast_data_absent_key repr0 dict_of0
                         [("id", Conv default); ("weightValue", Conv py_int)]
                         [("id", PStr "m1")] "weightValue" (Conv py_int)
                         (or_intror (or_introl eq_refl))
                         (nodupb_NoDup ["id"; "weightValue"] eq_refl)
                         eq_refl))).
  reflexivity.
Defined.

(** A document with one font master that has no [weightValue], cast with the
    full schema. *)
Example cast_data_font_master :
  cast_data repr0 dict_of0
    (PDict [("familyName", PStr "Test");
            ("fontMaster", PList [PDict [("id", PStr "m1"); ("descender", PStr "-200")]])])
    None
  = Ok (PDict [("familyName", PStr "Test");
               ("fontMaster", PList [PDict [("id", PStr "m1"); ("descender", PInt (-200));
                                            ("weightValue", PInt 100);
                                            ("widthValue", PInt 100)]])]).
Proof. vm_compute. reflexivity. Qed.

Lemma cast_data_present_key_witness :
  dict_get "paths" [("paths", PList [PDict [("closed", PStr "1")];
                                     PDict [("closed", PStr "0")]])]
    = Some (PList [PDict [("closed", PStr "1")]; PDict [("closed", PStr "0")]]) /\
  (exists d' recs,
     cast_data repr0 dict_of0
       (PDict [("paths", PList [PDict [("closed", PStr "1")];
                                PDict [("closed", PStr "0")]])])
       (Some [("paths", Sub [("closed", Conv truthy)])]) = Ok (PDict d') /\
     dict_get "paths" d' = Some (PList recs) /\
     recs = [PDict [("closed", PBool true)]; PDict [("closed", PBool false)]]) /\
  cast_entry (Conv py_int) "unitsPerEm" (PDict [("unitsPerEm", PStr "1000")])
    = Ok (PDict [("unitsPerEm", PInt 1000)]).
Proof.
  split; [reflexivity|]. split.
  - pose proof (proj2 (cast_data_present_key repr0 dict_of0
                         [("paths", Sub [("closed", Conv truthy)])]
                         [("paths", PList [PDict [("closed", PStr "1")];
                                           PDict [("closed", PStr "0")]])]
                         "paths" (Sub [("closed", Conv truthy)])
                         (PList [PDict [("closed", PStr "1")];
                                 PDict [("closed", PStr "0")]])
                         (or_introl eq_refl)
                         (nodupb_NoDup ["paths"] eq_refl)
                         eq_refl) _ eq_refl) as (d' & Hd' & recs & _ & Hrecs & Hget).
    exists d', recs. split; [rewrite <- Hd'; reflexivity|]. split; [exact Hget|].
    inversion Hrecs as [|r1 r1' l1 l1' H1 Hrest]; subst.
    inversion Hrest as [|r2 r2' l2 l2' H2 Hnil]; subst.
    inversion Hnil; subst.
    vm_compute in H1. vm_compute in H2.
    injection H1 as <-. injection H2 as <-. reflexivity.
  - apply (proj1 (cast_data_present_key repr0 dict_of0
                    [("unitsPerEm", Conv py_int)]
                    [("unitsPerEm", PStr "1000")] "unitsPerEm" (Conv py_int) (PStr "1000")
                    (or_introl eq_refl)
                    (nodupb_NoDup ["unitsPerEm"] eq_refl)
                    eq_refl)).
Defined.

(** A record list under a sub-schema: each record is cast with it. *)
Example cast_data_sub_schema :
  cast_data repr0 dict_of0
    (PDict [("paths", PList [PDict [("closed", PStr "1");
                                    ("nodes", PList [PStr "1 2 LINE"])];
                             PDict [("closed", PStr "0")]])])
    (Some [("paths", Sub [("closed", Conv truthy); ("nodes", Conv nodelist)])])
  = Ok (PDict [("paths", PList [PDict [("closed", PBool true);
                                       ("nodes", PMap MapNode (PList [PStr "1 2 LINE"]))];
                                PDict [("closed", PBool false)]])]).
Proof. vm_compute. reflexivity. Qed.

Lemma cast_data_frame_witness :
  ~ In "note" (keys (schema_of repr0 dict_of0 (Some [("unitsPerEm", Conv py_int)]))) /\
  exists d',
    PDict [("unitsPerEm", PInt 1000); ("note", PStr "7")] = PDict d' /\
    dict_get "note" d' = dict_get "note" [("unitsPerEm", PStr "1000"); ("note", PStr "7")].
Proof.
  assert (Hout : ~ In "note" (keys (schema_of repr0 dict_of0
                                      (Some [("unitsPerEm", Conv py_int)])))).
  { cbn. intros [H | []]. discriminate. }
  split; [exact Hout|].
  apply (cast_data_frame repr0 dict_of0 (Some [("unitsPerEm", Conv py_int)])
           [("unitsPerEm", PStr "1000"); ("note", PStr "7")] "note" _ Hout).
  reflexivity.
Defined.

(** ** Custom parameters *)

Lemma elements_map_int (strs : list string) :
  elements (PMap MapInt (PList (map PStr strs))) = mapM (fun s => py_int (PStr s)) strs.
Proof.
  unfold elements. cbn [for_each apply_mapfn]. rewrite mapM_map.
  apply mapM_ext. intros s. apply bind_ret.
Qed.

(** Reading [map(int, strs)] gives the ints of the strings, in order. *)
Lemma elements_ints (strs : list string) (zs : list Z) :
  ints_of strs zs ->
  elements (PMap MapInt (PList (map PStr strs))) = Ok (map PInt zs).
Proof.
  rewrite elements_map_int. unfold py_int. cbn [int_of].
  induction 1 as [|s z strs zs Hs _ IH]; [reflexivity|].
  cbn [mapM map]. rewrite Hs. cbn [bind]. rewrite IH. reflexivity.
Qed.

(** Reading it fails when [int] rejects one of the strings. *)
Lemma elements_not_ints (strs : list string) :
  Exists (fun s => parse_int 10 s = None) strs ->
  elements (PMap MapInt (PList (map PStr strs))) = Err ValueError.
Proof.
  rewrite elements_map_int. unfold py_int. cbn [int_of].
  induction strs as [|s strs IH]; intros H; [inversion H|].
  cbn [mapM]. destruct (parse_int 10 s) as [z|] eqn:E; cbn [bind]; [|reflexivity].
  inversion H as [? ? Hs | ? ? Hrest]; subst; [congruence|].
  rewrite (IH Hrest). reflexivity.
Qed.

Lemma map_PStr_inj (a b : list string) : map PStr a = map PStr b -> a = b.
Proof.
  revert b. induction a as [|x a IH]; intros [|y b] H; try discriminate; [reflexivity|].
  cbn [map] in H. injection H as -> H. f_equal. now apply IH.
Qed.

Lemma cast_custom_param_spec (p : value) :
  custom_param p -> exists p', cast_custom_param p = Ok p' /\ custom_param_cast p p'.
Proof.
  intros (d & name & -> & Hname & Hval).
  unfold cast_custom_param, custom_param_cast. cbn [getitem]. rewrite Hname. cbn [bind].
  fold os2_type.
  destruct (is_str os2_type name) eqn:E.
  - destruct (Hval eq_refl) as [strs Hstrs]. rewrite Hstrs. cbn [bind py_map setitem].
    eexists. split; [reflexivity|].
    exists d, name. rewrite E. repeat split; auto.
    exists strs, (PMap MapInt (PList (map PStr strs))). repeat split; auto.
    + apply elements_ints.
    + apply elements_not_ints.
  - eexists. split; [reflexivity|].
    exists d, name. rewrite E. auto.
Qed.

Lemma cast_custom_params_spec (params : list value) :
  Forall custom_param params ->
  exists params', mapM cast_custom_param params = Ok params' /\
                  Forall2 custom_param_cast params params'.
Proof.
  induction 1 as [|p params Hp _ (params' & IH1 & IH2)].
  - exists []. split; [reflexivity | constructor].
  - destruct (cast_custom_param_spec p Hp) as (p' & Hp1 & Hp2).
    exists (p' :: params'). cbn. rewrite Hp1. cbn. rewrite IH1. cbn.
    split; [reflexivity | now constructor].
Qed.

(** C9: when [data["customParameters"]] is a list of entries,
    [cast_custom_data] replaces, in every entry named [openTypeOS2Type], the
    list of strings at [value] by the lazy sequence of their ints, and leaves
    every other entry unchanged.  The sequence is an iterator that has
    computed nothing yet; read, it yields the int of each string, in order,
    and raises [ValueError] when [int] rejects one of them. *)
Theorem cast_custom_data_spec (d : list (string * value)) (params : list value)
  (Hparams : dict_get "customParameters" d = Some (PList params))
  (Hwf : Forall custom_param params) :
  exists params',
    cast_custom_data (PDict d) = Ok (PDict (dict_set "customParameters" (PList params') d)) /\
    Forall2 custom_param_cast params params'.
Proof.
  unfold cast_custom_data. cbn [getitem]. rewrite Hparams. cbn [bind for_each].
  destruct (cast_custom_params_spec params Hwf) as (params' & -> & HF).
  exists params'. split; [reflexivity | assumption].
Qed.

Lemma cast_custom_data_spec_witness :
  Forall custom_param
    [PDict [("name", PStr "openTypeOS2Type"); ("value", PList [PStr "3"; PStr "12"])];
     PDict [("name", PStr "note"); ("value", PStr "x")]] /\
  exists m,
    cast_custom_data
      (PDict [("customParameters",
               PList [PDict [("name", PStr "openTypeOS2Type");
                             ("value", PList [PStr "3"; PStr "12"])];
                      PDict [("name", PStr "note"); ("value", PStr "x")]])])
    = Ok (PDict [("customParameters",
                  PList [PDict [("name", PStr "openTypeOS2Type"); ("value", m)];
                         PDict [("name", PStr "note"); ("value", PStr "x")]])]) /\
    elements m = Ok [PInt 3; PInt 12].
Proof.
  assert (Hwf : Forall custom_param
                  [PDict [("name", PStr "openTypeOS2Type");
                          ("value", PList [PStr "3"; PStr "12"])];
                   PDict [("name", PStr "note"); ("value", PStr "x")]]).
  { constructor; [|constructor; [|constructor]].
    - exists [("name", PStr "openTypeOS2Type"); ("value", PList [PStr "3"; PStr "12"])],
             (PStr "openTypeOS2Type").
      repeat split. intros _. exists ["3"; "12"]. reflexivity.
    - exists [("name", PStr "note"); ("value", PStr "x")], (PStr "note").
      repeat split. intros H. discriminate H. }
  split; [exact Hwf|].
  destruct (cast_custom_data_spec
              [("customParameters",
                PList [PDict [("name", PStr "openTypeOS2Type");
                              ("value", PList [PStr "3"; PStr "12"])];
                       PDict [("name", PStr "note"); ("value", PStr "x")]])]
              _ eq_refl Hwf) as (params' & Hrun & HF).
  inversion HF as [|p1 p1' l1 l1' H1 HF1]; subst.
  inversion HF1 as [|p2 p2' l2 l2' H2 HF2]; subst.
  inversion HF2; subst.
  destruct H1 as (d1 & n1 & [= <-] & Hn1 & H1). injection Hn1 as <-.
  change (is_str os2_type (PStr "openTypeOS2Type")) with true in H1. cbv iota in H1.
  destruct H1 as (strs & m & Hval & -> & _ & Hints & _).
  destruct H2 as (d2 & n2 & [= <-] & Hn2 & H2). injection Hn2 as <-.
  change (is_str os2_type (PStr "note")) with false in H2. cbv iota in H2. subst p2'.
  injection Hval as Hval.
  apply (map_PStr_inj ["3"; "12"] strs) in Hval. subst strs.
  exists m. split; [exact Hrun|].
  apply (Hints [3; 12]). repeat constructor.
Defined.

(** The sequence is lazy: a string that is no int makes the cast succeed and
    the later reading of the sequence fail. *)
Example cast_custom_data_lazy :
  cast_custom_data
    (PDict [("customParameters",
             PList [PDict [("name", PStr "openTypeOS2Type"); ("value", PList [PStr "x"])]])])
  = Ok (PDict [("customParameters",
                PList [PDict [("name", PStr "openTypeOS2Type");
                              ("value", PMap MapInt (PList [PStr "x"]))]])]) /\
  elements (PMap MapInt (PList [PStr "x"])) = Err ValueError.
Proof. split; vm_compute; reflexivity. Qed.

(** * Further properties of the module *)

(** ** Unescaping *)

Lemma replace_from_skip (old new x rest : string) :
  replace_from old new (x ++ rest) (String.length x) = replace_from old new rest O.
Proof. induction x as [|a x IH]; cbn; auto. Qed.

Lemma replace_unfold (old new s : string) :
  old <> "" ->
  replace old new s =
    match strip_prefix old s with
    | Some rest => new ++ replace old new rest
    | None =>
        match s with
        | EmptyString => EmptyString
        | String a s' => String a (replace old new s')
        end
    end.
Proof.
  intros Hold. unfold replace. destruct s as [|a s'].
  - destruct old; [congruence | reflexivity].
  - cbn [replace_from].
    destruct (strip_prefix old (String a s')) as [rest|] eqn:E; [|reflexivity].
    apply strip_prefix_app in E. destruct old as [|b old']; [congruence|].
    cbn in E. injection E as -> ->. cbn [String.length].
    rewrite Nat.sub_1_r. cbn [Nat.pred]. now rewrite replace_from_skip.
Qed.

Lemma is_substring_unfold (k s : string) :
  is_substring k s =
    match strip_prefix k s with
    | Some _ => true
    | None =>
        match s with
        | String _ s' => is_substring k s'
        | EmptyString => false
        end
    end.
Proof. destruct s; reflexivity. Qed.

Lemma is_substring_suffix (q x s : string) :
  is_substring q (x ++ s) = false -> is_substring q s = false.
Proof.
  induction x as [|a x IH]; cbn [append]; [auto|].
  rewrite (is_substring_unfold q (String a (x ++ s))).
  destruct (strip_prefix q (String a (x ++ s))); [discriminate | exact IH].
Qed.

Lemma replace_absent (old new s : string) :
  old <> "" -> is_substring old s = false -> replace old new s = s.
Proof.
  intros Hold. induction s as [|a s IH]; intros Habs; rewrite replace_unfold by assumption.
  - destruct old; [congruence | reflexivity].
  - rewrite is_substring_unfold in Habs.
    destruct (strip_prefix old (String a s)); [discriminate|].
    now rewrite IH.
Qed.

Section Replace.
Variables (old : string) (c : ascii).
Hypothesis Hold : old <> "".

Lemma strip_prefix_replace (q s r : string) :
  no_char c q = true ->
  strip_prefix q (replace old (one_char c) s) = Some r ->
  exists r', strip_prefix q s = Some r'.
Proof.
  revert s r. induction q as [|b q IH]; intros s r Hq H.
  - rewrite strip_prefix_nil. eauto.
  - cbn in Hq. apply andb_true_iff in Hq as [Hb Hq].
    apply negb_true_iff in Hb.
    rewrite replace_unfold in H by assumption.
    destruct (strip_prefix old s) as [rest|] eqn:E.
    + unfold one_char in H. cbn [append] in H. rewrite strip_prefix_cons in H.
      rewrite Hb in H. discriminate.
    + destruct s as [|a s]; [rewrite strip_prefix_cons in H; discriminate|].
      rewrite strip_prefix_cons in H. rewrite strip_prefix_cons.
      destruct (Ascii.eqb b a); [|discriminate].
      eapply IH; eauto.
Qed.

Lemma replace_keeps_absent_len (q : string) (n : nat) (s : string) :
  (String.length s <= n)%nat ->
  no_char c q = true -> q <> "" ->
  is_substring q s = false -> is_substring q (replace old (one_char c) s) = false.
Proof.
  revert s. induction n as [|n IH]; intros s Hlen Hq Hne Habs.
  - destruct s; [|cbn in Hlen; lia].
    rewrite replace_unfold by assumption.
    destruct old; [congruence|]. exact Habs.
  - rewrite is_substring_unfold.
    destruct (strip_prefix q (replace old (one_char c) s)) as [r|] eqn:Ep.
    { apply strip_prefix_replace in Ep as [r' Ep]; [|assumption].
      rewrite is_substring_unfold, Ep in Habs. discriminate. }
    rewrite replace_unfold in * by assumption.
    destruct (strip_prefix old s) as [rest|] eqn:E.
    + unfold one_char. cbn [append]. apply IH; auto.
      * apply strip_prefix_app in E. subst s. rewrite length_app in Hlen.
        destruct old; [congruence|]. cbn in Hlen. lia.
      * apply strip_prefix_app in E. subst s. eapply is_substring_suffix; eauto.
    + destruct s as [|a s]; [reflexivity|].
      apply IH; auto.
      * cbn in Hlen. lia.
      * rewrite is_substring_unfold in Habs.
        destruct (strip_prefix q (String a s)); [discriminate | assumption].
Qed.

Lemma replace_keeps_absent (q s : string) :
  no_char c q = true -> q <> "" ->
  is_substring q s = false -> is_substring q (replace old (one_char c) s) = false.
Proof. apply (replace_keeps_absent_len q (String.length s)). lia. Qed.

Lemma replace_removes_len (n : nat) (s : string) :
  (String.length s <= n)%nat ->
  no_char c old = true ->
  is_substring old (replace old (one_char c) s) = false.
Proof.
  revert s. induction n as [|n IH]; intros s Hlen Hq.
  - destruct s; [|cbn in Hlen; lia].
    rewrite replace_unfold by assumption.
    destruct old; [congruence | reflexivity].
  - rewrite is_substring_unfold.
    destruct (strip_prefix old (replace old (one_char c) s)) as [r|] eqn:Ep.
    { pose proof Ep as Ep'. apply strip_prefix_replace in Ep' as [r' Ep']; [|assumption].
      rewrite replace_unfold, Ep' in Ep by assumption.
      unfold one_char in Ep. cbn [append] in Ep.
      destruct old as [|b old']; [congruence|].
      rewrite strip_prefix_cons in Ep. cbn in Hq.
      apply andb_true_iff in Hq as [Hb _]. apply negb_true_iff in Hb.
      rewrite Hb in Ep. discriminate. }
    rewrite replace_unfold in * by assumption.
    destruct (strip_prefix old s) as [rest|] eqn:E.
    + unfold one_char. cbn [append]. apply IH; auto.
      apply strip_prefix_app in E. subst s. rewrite length_app in Hlen.
      destruct old; [congruence|]. cbn in Hlen. lia.
    + destruct s as [|a s]; [reflexivity|].
      apply IH; auto. cbn in Hlen. lia.
Qed.

Lemma replace_removes (s : string) :
  no_char c old = true -> is_substring old (replace old (one_char c) s) = false.
Proof. apply (replace_removes_len (String.length s)). lia. Qed.
End Replace.

Lemma feature_syntax_text (s : string) :
  feature_syntax (PStr s) = Ok (PStr (feature_text s)).
Proof. reflexivity. Qed.

Lemma fold_unescape_keeps_absent (qs : list string) (rs : list (string * string))
  (q s : string) :
  clean_replacements qs rs -> In q qs -> q <> "" ->
  is_substring q s = false ->
  is_substring q (fold_left unescape rs s) = false.
Proof.
  intros Hrs Hq Hne. revert s.
  induction Hrs as [|[p n] rs (Hp & c & Hn & Hc) _ IH]; intros s Habs; cbn [fold_left].
  - exact Habs.
  - apply IH. cbn [unescape]. cbn [fst snd] in *. subst n.
    apply replace_keeps_absent; auto.
    rewrite Forall_forall in Hc. now apply Hc.
Qed.

Lemma fold_unescape_removes (qs : list string) (rs : list (string * string))
  (p n s : string) :
  clean_replacements qs rs -> In (p, n) rs -> In p qs ->
  is_substring p (fold_left unescape rs s) = false.
Proof.
  intros Hrs. revert s.
  induction Hrs as [|[p0 n0] rs (Hp & c & Hn & Hc) Hrs' IH]; intros s Hin Hq; [destruct Hin|].
  cbn [fold_left]. destruct Hin as [[= -> ->] | Hin].
  - cbn [fst snd] in *. subst n.
    apply (fold_unescape_keeps_absent qs); auto.
    cbn [unescape]. apply replace_removes; auto.
    rewrite Forall_forall in Hc. now apply Hc.
  - now apply IH.
Qed.

Lemma fold_unescape_absent (rs : list (string * string)) (s : string) :
  Forall (fun r => fst r <> "" /\ is_substring (fst r) s = false) rs ->
  fold_left unescape rs s = s.
Proof.
  induction 1 as [|[p n] rs [Hp Habs] _ IH]; cbn [fold_left]; [reflexivity|].
  cbn [unescape fst] in *. rewrite replace_absent; auto.
Qed.

Lemma replacements_clean : clean_replacements escapes replacements.
Proof.
  unfold clean_replacements, replacements.
  repeat constructor; cbn [fst snd]; try discriminate;
    eexists; (split; [reflexivity|]); repeat constructor.
Qed.

(** X5: the result of [feature_syntax] on a string contains none of the six
    escape sequences, and [feature_syntax] maps it to itself: unescaping is
    idempotent. *)
Theorem feature_syntax_no_escape_left (s : string) :
  exists t,
    feature_syntax (PStr s) = Ok (PStr t) /\
    Forall (fun q => is_substring q t = false) escapes /\
    feature_syntax (PStr t) = Ok (PStr t).
Proof.
  exists (feature_text s). split; [reflexivity|].
  assert (Hfree : Forall (fun q => is_substring q (feature_text s) = false) escapes).
  { apply Forall_forall. intros q Hq.
    unfold escapes in Hq. apply in_map_iff in Hq as ([p n] & <- & Hin).
    apply (fold_unescape_removes escapes replacements p n); auto.
    - apply replacements_clean.
    - unfold escapes. now apply (in_map fst) in Hin. }
  split; [exact Hfree|].
  rewrite feature_syntax_text. do 2 f_equal.
  apply fold_unescape_absent.
  pose proof replacements_clean as Hc. unfold clean_replacements in Hc.
  rewrite Forall_forall in *.
  intros [p n] Hin. split.
  - now apply (Hc (p, n)).
  - apply Hfree. unfold escapes. now apply (in_map fst) in Hin.
Qed.

(** X6: [feature_syntax] returns a string in which none of the six escape
    sequences occurs unchanged. *)
Theorem feature_syntax_identity (s : string) :
  Forall (fun q => is_substring q s = false) escapes ->
  feature_syntax (PStr s) = Ok (PStr s).
Proof.
  intros Hfree. rewrite feature_syntax_text. do 2 f_equal.
  apply fold_unescape_absent.
  pose proof replacements_clean as Hc. unfold clean_replacements in Hc.
  rewrite Forall_forall in *.
  intros [p n] Hin. split.
  - now apply (Hc (p, n)).
  - apply Hfree. unfold escapes. now apply (in_map fst) in Hin.
Qed.

(** ** Vectors of any dimension *)

Lemma rmatch_group_plus {R : Type} (i : nat) (p : ascii -> bool) (s : string)
  (caps : captures) (k : string -> captures -> option R) :
  (forall c r caps', p c = true -> k (String c r) caps' = None) ->
  rmatch (Group i (ClsPlus p)) s caps k =
    match span p s with
    | (String _ _ as x, r) => k r (set_nth i (Some x) caps)
    | _ => None
    end.
Proof.
  intros Hk. cbn [rmatch]. rewrite plus_match_span by (intros; apply Hk; assumption).
  pose proof (span_app p s) as Hs.
  destruct (span p s) as [[|cx x] r]; [reflexivity|].
  cbn [fst snd] in Hs. now rewrite Hs, consumed_app.
Qed.

Lemma vector_groups_SS (i n : nat) :
  vector_groups i (S (S n)) =
    Seq (Group i (ClsPlus num_char)) (Seq (Lit ", ") (vector_groups (S i) (S n))).
Proof. reflexivity. Qed.

Lemma vector_split_SS (n : nat) (s : string) :
  vector_split (S (S n)) s =
    match span num_char s with
    | (String _ _ as x, r) =>
        match strip_prefix ", " r with
        | Some r' =>
            match vector_split (S n) r' with
            | Some (xs, rest) => Some (x :: xs, rest)
            | None => None
            end
        | None => None
        end
    | _ => None
    end.
Proof. reflexivity. Qed.

Lemma rmatch_vector_groups {R : Type} (n i : nat) (s : string) (caps : captures)
  (k : string -> captures -> option R) :
  rmatch (Seq (vector_groups i n) (Lit "}")) s caps k =
    match vector_split n s with
    | Some (xs, rest) => k rest (set_caps i xs caps)
    | None => None
    end.
Proof.
  revert i s caps. induction n as [|n IH]; intros i s caps.
  - cbn [vector_groups vector_split rmatch]. rewrite strip_prefix_nil.
    destruct (strip_prefix "}" s); reflexivity.
  - destruct n as [|n].
    + cbn [vector_groups vector_split].
      change (rmatch (Seq ?a ?b) ?s ?c ?k)
        with (rmatch a s c (fun s' caps' => rmatch b s' caps' k)).
      rewrite rmatch_group_plus.
      2:{ intros c r caps' Hc. cbn [rmatch]. rewrite strip_prefix_cons.
          destruct (Ascii.eqb "}" c) eqn:E; [|reflexivity].
          apply Ascii.eqb_eq in E. subst c. discriminate. }
      destruct (span num_char s) as [[|cx x] r]; [reflexivity|].
      cbn [rmatch]. destruct (strip_prefix "}" r); reflexivity.
    + rewrite vector_groups_SS, vector_split_SS.
      change (rmatch (Seq (Seq ?a (Seq ?l ?v)) ?b) ?s ?c ?k)
        with (rmatch a s c (fun s1 c1 =>
                rmatch l s1 c1 (fun s2 c2 => rmatch (Seq v b) s2 c2 k))).
      rewrite rmatch_group_plus.
      2:{ intros c r caps' Hc. cbn [rmatch]. rewrite strip_prefix_cons.
          destruct (Ascii.eqb "," c) eqn:E; [|reflexivity].
          apply Ascii.eqb_eq in E. subst c. discriminate. }
      destruct (span num_char s) as [[|cx x] r]; [reflexivity|].
      change (rmatch (Lit ?l) ?s ?c ?k)
        with (match strip_prefix l s with Some s' => k s' c | None => None end).
      destruct (strip_prefix ", " r) as [r'|]; [|reflexivity].
      rewrite IH. destruct (vector_split (S n) r') as [[xs rest]|]; reflexivity.
Qed.

Lemma set_nth_app {A : Type} (pre : list A) (a b : A) (post : list A) :
  set_nth (List.length pre) a (pre ++ b :: post)%list = (pre ++ a :: post)%list.
Proof. induction pre as [|p pre IH]; cbn; [reflexivity | now rewrite IH]. Qed.

Lemma set_caps_fill (xs : list string) (pre : captures) :
  set_caps (List.length pre) xs (pre ++ repeat None (List.length xs))%list
  = (pre ++ map Some xs)%list.
Proof.
  revert pre. induction xs as [|x xs IH]; intros pre; cbn [set_caps List.length repeat map].
  - reflexivity.
  - rewrite set_nth_app.
    replace (pre ++ Some x :: repeat None (List.length xs))%list
      with ((pre ++ [Some x]) ++ repeat None (List.length xs))%list
      by (rewrite <- app_assoc; reflexivity).
    replace (S (List.length pre)) with (List.length (pre ++ [Some x])%list)
      by (rewrite List.length_app; cbn; lia).
    rewrite IH. rewrite <- app_assoc. reflexivity.
Qed.

Lemma join_tokens_cons (x y : string) (xs : list string) :
  join_tokens (x :: y :: xs) = x ++ ", " ++ join_tokens (y :: xs).
Proof. reflexivity. Qed.

Lemma append_assoc (a b c : string) : (a ++ b) ++ c = a ++ b ++ c.
Proof. induction a as [|x a IH]; cbn; [reflexivity | now rewrite IH]. Qed.

Lemma span_token_then (x r : string) :
  token x -> starts_with num_char r = false ->
  span num_char (x ++ r) = (x, r) /\ exists c x', x = String c x'.
Proof.
  intros [Hne Hall] Hr. split.
  - now apply span_unique.
  - destruct x; [congruence | eauto].
Qed.

(** The deterministic reading succeeds exactly on [X1, ..., Xn}...]. *)
Lemma vector_split_form (n : nat) (s : string) (xs : list string) (rest : string) :
  vector_split n s = Some (xs, rest) <->
  s = join_tokens xs ++ "}" ++ rest /\ List.length xs = n /\ Forall token xs.
Proof.
  revert s xs. induction n as [|n IH]; intros s xs.
  - cbn [vector_split]. split.
    + destruct (strip_prefix "}" s) as [r|] eqn:E; [|discriminate].
      intros [= <- <-]. apply strip_prefix_app in E. cbn. auto.
    + intros (-> & Hlen & _). destruct xs; [|discriminate]. reflexivity.
  - destruct n as [|n].
    + cbn [vector_split]. split.
      * pose proof (span_app num_char s) as Hs.
        pose proof (span_all num_char s) as [Hx _].
        destruct (span num_char s) as [[|cx x] r]; [discriminate|].
        cbn [fst snd] in Hs, Hx.
        destruct (strip_prefix "}" r) as [r'|] eqn:E; [|discriminate].
        intros [= <- <-]. apply strip_prefix_app in E. subst r.
        repeat split; auto.
        constructor; [|constructor]. split; [discriminate | assumption].
      * intros (-> & Hlen & Hall).
        destruct xs as [|x [|? ?]]; try discriminate.
        inversion Hall as [|? ? Hx _]; subst. cbn [join_tokens].
        destruct (span_token_then x ("}" ++ rest) Hx eq_refl) as [E (cx & x' & ->)].
        rewrite E. reflexivity.
    + rewrite vector_split_SS. split.
      * pose proof (span_app num_char s) as Hs.
        pose proof (span_all num_char s) as [Hx _].
        destruct (span num_char s) as [[|cx x] r]; [discriminate|].
        cbn [fst snd] in Hs, Hx.
        destruct (strip_prefix ", " r) as [r'|] eqn:E; [|discriminate].
        destruct (vector_split (S n) r') as [[ys rest']|] eqn:Ey; [|discriminate].
        intros [= <- <-]. apply strip_prefix_app in E. subst r.
        apply IH in Ey as (-> & Hlen & Hall).
        destruct ys as [|y ys]; [discriminate|].
        rewrite join_tokens_cons. repeat split.
        -- rewrite Hs. rewrite !append_assoc. reflexivity.
        -- cbn in *. lia.
        -- constructor; [|assumption]. split; [discriminate | assumption].
      * intros (-> & Hlen & Hall).
        destruct xs as [|x [|y ys]]; try discriminate.
        inversion Hall as [|? ? Hx Hall']; subst.
        rewrite join_tokens_cons. rewrite !append_assoc.
        destruct (span_token_then x (", " ++ join_tokens (y :: ys) ++ "}" ++ rest) Hx eq_refl)
          as [E (cx & x' & ->)].
        rewrite E.
        assert (Es : strip_prefix ", " (", " ++ join_tokens (y :: ys) ++ "}" ++ rest)
                     = Some (join_tokens (y :: ys) ++ "}" ++ rest))
          by (now apply strip_prefix_app).
        rewrite Es.
        assert (Ey : vector_split (S n) (join_tokens (y :: ys) ++ "}" ++ rest)
                     = Some (y :: ys, rest)).
        { apply IH. repeat split; auto. }
        now rewrite Ey.
Qed.

Lemma match_groups_vector (dimension : nat) (s : string) :
  match_groups (vector_rx dimension) dimension (PStr s) =
    match strip_prefix "{" s with
    | Some s1 =>
        match vector_split dimension s1 with
        | Some (xs, _) => Ok (map PStr xs)
        | None => Err AttributeError
        end
    | None => Err AttributeError
    end.
Proof.
  unfold match_groups, re_match, vector_rx.
  change (rmatch (Seq (Lit ?l) ?b) ?s ?c ?k)
    with (match strip_prefix l s with
          | Some s' => rmatch b s' c k
          | None => None
          end).
  destruct (strip_prefix "{" s) as [s1|]; [|reflexivity].
  rewrite rmatch_vector_groups.
  destruct (vector_split dimension s1) as [[xs rest]|] eqn:E; [|reflexivity].
  apply vector_split_form in E as (_ & Hlen & _). subst dimension.
  pose proof (set_caps_fill xs []) as Hfill. cbn [List.length app] in Hfill.
  rewrite Hfill. rewrite map_map. reflexivity.
Qed.

Lemma vector_equation (dimension : nat) (s : string) :
  vector (PStr s) dimension =
    match strip_prefix "{" s with
    | Some s1 =>
        match vector_split dimension s1 with
        | Some (xs, _) => l <- mapM num (map PStr xs) ;; Ok (PList l)
        | None => Err AttributeError
        end
    | None => Err AttributeError
    end.
Proof.
  unfold vector. rewrite match_groups_vector.
  destruct (strip_prefix "{" s) as [s1|]; [|reflexivity].
  destruct (vector_split dimension s1) as [[xs rest]|]; reflexivity.
Qed.

(** X1: on a string that begins with [{X1, ..., Xd}], [d] numeric tokens
    separated by a comma and one blank, [vector] with dimension [d] returns
    the list of [num(X1)], ..., [num(Xd)], failing where [num] fails, whatever
    follows the closing brace; a string of ASCII characters that does not
    begin with this form fails, with [AttributeError].  [point] is the case
    [d = 2], [transform] the case [d = 6]. *)
Theorem vector_spec (dimension : nat) (s : string) :
  (forall xs rest, vector_form dimension s xs rest ->
     vector (PStr s) dimension = (l <- mapM num (map PStr xs) ;; Ok (PList l))) /\
  (ascii_string s -> (forall xs rest, ~ vector_form dimension s xs rest) ->
     vector (PStr s) dimension = Err AttributeError).
Proof.
  rewrite vector_equation. split.
  - intros xs rest (-> & Hlen & Hall).
    assert (E0 : strip_prefix "{" ("{" ++ join_tokens xs ++ "}" ++ rest)
                 = Some (join_tokens xs ++ "}" ++ rest))
      by (now apply strip_prefix_app).
    rewrite E0.
    assert (E : vector_split dimension (join_tokens xs ++ "}" ++ rest) = Some (xs, rest))
      by (apply vector_split_form; auto).
    now rewrite E.
  - intros _ Hno.
    destruct (strip_prefix "{" s) as [s1|] eqn:E1; [|reflexivity].
    destruct (vector_split dimension s1) as [[xs rest]|] eqn:E2; [|reflexivity].
    exfalso. apply (Hno xs rest).
    apply strip_prefix_app in E1. apply vector_split_form in E2 as (-> & Hlen & Hall).
    subst s. repeat split; auto.
Qed.

Lemma num_is_number (v r : value) : num v = Ok r -> is_number r.
Proof.
  unfold num. intros H.
  apply bind_ok in H as (f & _ & H). apply bind_ok in H as (z & _ & H).
  destruct (int_eq_float z f); injection H as <-; exact I.
Qed.

Lemma mapM_length {A B : Type} (f : A -> result B) (l : list A) (l' : list B) :
  mapM f l = Ok l' -> List.length l' = List.length l.
Proof.
  intros H. apply mapM_Forall2 in H. induction H; cbn; auto.
Qed.

Lemma mapM_Forall {A B : Type} (f : A -> result B) (P : B -> Prop) (l : list A) (l' : list B) :
  (forall a b, f a = Ok b -> P b) -> mapM f l = Ok l' -> Forall P l'.
Proof.
  intros HP H. apply mapM_Forall2 in H. induction H; constructor; eauto.
Qed.

(** X2: whatever [vector] returns is a list of exactly [dimension] numbers,
    each an int or a float. *)
Theorem vector_shape (dimension : nat) (v r : value) :
  vector v dimension = Ok r ->
  exists l, r = PList l /\ List.length l = dimension /\ Forall is_number l.
Proof.
  destruct v; try discriminate. rewrite vector_equation.
  destruct (strip_prefix "{" s) as [s1|]; [|discriminate].
  destruct (vector_split dimension s1) as [[xs rest]|] eqn:E; [|discriminate].
  intros H. apply bind_ok in H as (l & Hl & [= <-]).
  exists l. split; [reflexivity|]. split.
  - apply mapM_length in Hl. rewrite Hl, List.length_map.
    now apply vector_split_form in E as (_ & Hlen & _).
  - eapply mapM_Forall; [|exact Hl]. intros a b. apply num_is_number.
Qed.

(** ** The shape of a node *)

(** X3: whatever [node] returns is a list of four components: two numbers,
    one of the types LINE, CURVE and OFFCURVE, and ["SMOOTH"] or [None]. *)
Theorem node_shape (v r : value) :
  node v = Ok r ->
  exists x y t sm,
    r = PList [x; y; PStr t; sm] /\
    is_number x /\ is_number y /\ In t node_types /\
    (sm = PNone \/ sm = PStr "SMOOTH").
Proof.
  destruct v; try discriminate. rewrite node_equation.
  destruct (node_split s) as [[[[x y] t] rest]|] eqn:E; [|discriminate].
  apply node_split_form in E as (_ & _ & _ & Ht).
  intros H. apply bind_ok in H as (vx & Hx & H). apply bind_ok in H as (vy & Hy & [= <-]).
  exists vx, vy, t, (smooth_of rest). repeat split; auto.
  - eapply num_is_number; eauto.
  - eapply num_is_number; eauto.
  - unfold smooth_of. destruct (strip_prefix " SMOOTH" rest); auto.
Qed.

(** ** The time zone of a date *)

Lemma rfind_space_none (t : string) :
  no_char " " t = true -> rfind_space t = -1.
Proof.
  induction t as [|a t IH]; cbn; [reflexivity|].
  intros H. apply andb_true_iff in H as [Ha Ht]. rewrite (IH Ht). cbn.
  apply negb_true_iff in Ha. now rewrite Ha.
Qed.

Lemma rfind_space_app (s r : string) :
  0 <= rfind_space r ->
  rfind_space (s ++ r) = Z.of_nat (String.length s) + rfind_space r.
Proof.
  intros Hr. induction s as [|a s IH]; cbn [append String.length rfind_space].
  - cbn. lia.
  - rewrite IH. destruct (0 <=? Z.of_nat (String.length s) + rfind_space r) eqn:E; [lia|].
    apply Z.leb_gt in E. lia.
Qed.

Lemma slice_to_app (s r : string) :
  slice_to (s ++ r) (Z.of_nat (String.length s)) = s.
Proof.
  unfold slice_to. rewrite length_app.
  destruct (Z.of_nat (String.length s) <? 0) eqn:E; [apply Z.ltb_lt in E; lia|].
  rewrite Z.min_l by lia. rewrite Nat2Z.id. apply substring_app.
Qed.

(** X7: [glyphs_datetime] discards everything after the last blank, whatever
    it is: on [s + " " + tz], with no blank in [tz], it is [strptime] of [s]. *)
Theorem glyphs_datetime_ignores_last_token (s tz : string) :
  no_char " " tz = true ->
  glyphs_datetime (PStr (s ++ " " ++ tz)) = strptime s.
Proof.
  intros Htz. cbn [glyphs_datetime].
  assert (Hr : rfind_space (" " ++ tz) = 0).
  { cbn. now rewrite (rfind_space_none tz Htz). }
  rewrite rfind_space_app by lia. rewrite Hr, Z.add_0_r.
  now rewrite slice_to_app.
Qed.

(** ** Keys under [dict_set] *)

Lemma dict_mem_In {V : Type} (k : string) (d : list (string * V)) :
  dict_mem k d = true <-> In k (keys d).
Proof.
  unfold dict_mem. induction d as [|[k' v'] d IH]; cbn.
  - split; [discriminate | tauto].
  - destruct (String.eqb k k') eqn:E.
    + apply String.eqb_eq in E. subst. tauto.
    + apply String.eqb_neq in E. rewrite IH. split; [tauto|].
      intros [H | H]; [congruence | assumption].
Qed.

Lemma keys_dict_set {V : Type} (k : string) (v : V) (d : list (string * V)) :
  keys (dict_set k v d) = if dict_mem k d then keys d else (keys d ++ [k])%list.
Proof.
  unfold dict_mem, keys. induction d as [|[k' v'] d IH]; cbn; [reflexivity|].
  destruct (String.eqb k k') eqn:E; cbn; [reflexivity|].
  rewrite IH. now destruct (dict_get k d).
Qed.

Lemma dict_set_NoDup {V : Type} (k : string) (v : V) (d : list (string * V)) :
  NoDup (keys d) -> NoDup (keys (dict_set k v d)).
Proof.
  intros Hnd. rewrite keys_dict_set. destruct (dict_mem k d) eqn:E; [assumption|].
  apply NoDup_app; [assumption | repeat constructor; auto |].
  intros x Hx [<- | []]. apply dict_mem_In in Hx. congruence.
Qed.

Lemma dict_set_Forall {V : Type} (Q : V -> Prop) (k : string) (v : V)
  (d : list (string * V)) :
  Forall (fun kv => Q (snd kv)) d -> Q v ->
  Forall (fun kv => Q (snd kv)) (dict_set k v d).
Proof.
  intros Hd Hv. induction Hd as [|[k' v'] d Hkv Hd IH]; cbn.
  - repeat constructor. exact Hv.
  - destruct (String.eqb k k'); constructor; auto.
Qed.

Lemma dict_set_same {V : Type} (k : string) (v : V) (d : list (string * V)) :
  dict_get k d = Some v -> dict_set k v d = d.
Proof.
  induction d as [|[k' v'] d IH]; cbn; [discriminate|].
  destruct (String.eqb k k') eqn:E.
  - now intros [= ->].
  - intros H. now rewrite IH.
Qed.

(** ** What [kerning] returns *)

Lemma foldM_level_inv (f : value -> result value) (P : value -> Prop)
  (l acc new : list (string * value)) :
  (forall x y, f x = Ok y -> P y) ->
  NoDup (keys acc) -> Forall (fun kv => P (snd kv)) acc ->
  foldM (level_body f) l acc = Ok new ->
  NoDup (keys new) /\ Forall (fun kv => P (snd kv)) new.
Proof.
  intros Hf. revert acc. induction l as [|[k x] l IH]; intros acc Hnd Hall; cbn [foldM].
  - intros [= <-]. auto.
  - intros H. apply bind_ok in H as (acc' & Hstep & H).
    cbn [level_body] in Hstep. apply bind_ok in Hstep as (y & Hy & [= <-]).
    apply (IH (dict_set k y acc)); auto.
    + now apply dict_set_NoDup.
    + apply dict_set_Forall; eauto.
Qed.

Lemma cast_level_inv (f : value -> result value) (P : value -> Prop) (v r : value) :
  (forall x y, f x = Ok y -> P y) ->
  cast_level f v = Ok r ->
  exists new, r = PDict new /\ NoDup (keys new) /\ Forall (fun kv => P (snd kv)) new.
Proof.
  intros Hf H. unfold cast_level in H.
  apply bind_ok in H as (rs & _ & H). apply bind_ok in H as (new & Hnew & [= <-]).
  exists new. split; [reflexivity|].
  apply (foldM_level_inv f P rs [] new); auto; constructor.
Qed.

Lemma Forall_embedded {A : Type} (emb : A -> value) (Q : A -> Prop)
  (new : list (string * value)) :
  Forall (fun kv => exists a, snd kv = emb a /\ Q a) new ->
  exists l, new = map_values emb l /\ Forall (fun ka => Q (snd ka)) l.
Proof.
  induction 1 as [|[k v] new (a & Ha & HQ) _ (l & -> & Hl)].
  - exists []. split; [reflexivity | constructor].
  - cbn in Ha. subst v. exists ((k, a) :: l). split; [reflexivity|].
    constructor; assumption.
Qed.

Lemma kerning_glyph_map_shape (v r : value) :
  kerning_glyph_map v = Ok r ->
  exists l : list (string * Z), r = PDict (map_values PInt l) /\ NoDup (keys l).
Proof.
  destruct kerning_levels as (-> & _ & _). intros H.
  apply (cast_level_inv py_int (fun y => exists z, y = PInt z /\ True)) in H
    as (new & -> & Hnd & Hall).
  - apply Forall_embedded in Hall as (l & -> & _).
    exists l. split; [reflexivity|]. now rewrite keys_map_values in Hnd.
  - intros x y Hy. unfold py_int in Hy. apply bind_ok in Hy as (z & _ & [= <-]). eauto.
Qed.

Lemma kerning_master_map_shape (v r : value) :
  kerning_master_map v = Ok r ->
  exists m : list (string * list (string * Z)),
    r = PDict (map_values (fun l => PDict (map_values PInt l)) m) /\
    NoDup (keys m) /\ Forall (fun l => NoDup (keys (snd l))) m.
Proof.
  destruct kerning_levels as (_ & -> & _). intros H.
  apply (cast_level_inv kerning_glyph_map
           (fun y => exists l : list (string * Z),
                       y = PDict (map_values PInt l) /\ NoDup (keys l))) in H
    as (new & -> & Hnd & Hall).
  - apply Forall_embedded in Hall as (m & -> & Hm).
    exists m. split; [reflexivity|]. split; [now rewrite keys_map_values in Hnd | exact Hm].
  - intros x y. apply kerning_glyph_map_shape.
Qed.

Lemma kerning_result (v r : value) :
  kerning v = Ok r ->
  exists new,
    r = PDict new /\ NoDup (keys new) /\
    Forall (fun kv => exists m : list (string * list (string * Z)),
                        snd kv = PDict (map_values (fun l => PDict (map_values PInt l)) m) /\
                        (NoDup (keys m) /\ Forall (fun l => NoDup (keys (snd l))) m)) new.
Proof.
  destruct kerning_levels as (_ & _ & ->).
  apply (cast_level_inv kerning_master_map
           (fun y => exists m : list (string * list (string * Z)),
                       y = PDict (map_values (fun l => PDict (map_values PInt l)) m) /\
                       (NoDup (keys m) /\ Forall (fun l => NoDup (keys (snd l))) m))).
  intros x y Hy. apply kerning_master_map_shape in Hy as (m & -> & H1 & H2). eauto.
Qed.

(** X8: whatever [kerning] returns is a three-level dict with int leaves
    and distinct keys in each dict, for any input. *)
Theorem kerning_shape (v r : value) :
  kerning v = Ok r ->
  exists gz : grid Z, r = grid_value PInt gz /\ distinct_keys gz.
Proof.
  intros H. apply kerning_result in H as (new & -> & Hnd & Hall).
  apply Forall_embedded in Hall as (gz & -> & Hgz).
  exists gz. split; [reflexivity|].
  split; [now rewrite keys_map_values in Hnd | exact Hgz].
Qed.

Lemma kerning_int_grid (gz : grid Z) :
  distinct_keys gz -> kerning (grid_value PInt gz) = Ok (grid_value PInt gz).
Proof.
  intros [Hnd Hnds]. destruct kerning_levels as (E3 & E2 & ->).
  unfold grid_value.
  apply (cast_level_ok
           (fun m => PDict (map_values (fun l => PDict (map_values PInt l)) m))
           (fun m => PDict (map_values (fun l => PDict (map_values PInt l)) m))
           kerning_master_map (fun m => m)); auto.
  rewrite Forall_forall in *. intros [k m] Hm. destruct (Hnds _ Hm) as [Hm1 Hm2].
  cbn [snd] in *. rewrite E2.
  apply (cast_level_ok (fun l => PDict (map_values PInt l))
           (fun l => PDict (map_values PInt l)) kerning_glyph_map (fun l => l)); auto.
  rewrite Forall_forall in *. intros [k' l] Hl. specialize (Hm2 _ Hl).
  cbn [snd] in *. rewrite E3.
  apply (cast_level_ok PInt PInt py_int (fun z => z)); auto.
  apply Forall_forall. intros kv _. reflexivity.
Qed.

(** X9: [kerning] maps its own result to itself: casting kerning data that
    has been cast changes nothing. *)
Theorem kerning_idempotent (v r : value) :
  kerning v = Ok r -> kerning r = Ok r.
Proof.
  intros H. apply kerning_result in H as (new & -> & Hnd & Hall).
  apply Forall_embedded in Hall as (gz & -> & Hgz).
  apply (kerning_int_grid gz). split; [|exact Hgz].
  now rewrite keys_map_values in Hnd.
Qed.

(** ** Casting a cast value again *)

(** X10: [truthy], [int], [descender_val] and [version_minor] accept their
    own result and return it unchanged. *)
Theorem recast_stable (v r : value) :
  (truthy v = Ok r -> truthy r = Ok r) /\
  (py_int v = Ok r -> py_int r = Ok r) /\
  (descender_val v = Ok r -> descender_val r = Ok r) /\
  (version_minor v = Ok r -> version_minor r = Ok r).
Proof.
  repeat split.
  - unfold truthy. intros H. apply bind_ok in H as (z & _ & [= <-]).
    cbn. now destruct (z =? 0).
  - unfold py_int. intros H. apply bind_ok in H as (z & _ & [= <-]). reflexivity.
  - unfold descender_val. intros H. apply bind_ok in H as (z & _ & H).
    destruct (z <? 0) eqn:E; [|discriminate]. injection H as <-.
    cbn. now rewrite E.
  - unfold version_minor. intros H. apply bind_ok in H as (z & _ & H).
    destruct ((0 <=? z) && (z <=? 999)) eqn:E; [|discriminate]. injection H as <-.
    cbn [int_of bind]. now rewrite E.
Qed.

(** X11: [hex_int], [vector] (so [point] and [transform]) and [node] reject
    their own result with [TypeError]: these fields cannot be cast twice. *)
Theorem recast_fails (v r : value) (dimension : nat) :
  (hex_int v = Ok r -> hex_int r = Err TypeError) /\
  (vector v dimension = Ok r -> vector r dimension = Err TypeError) /\
  (node v = Ok r -> node r = Err TypeError).
Proof.
  repeat split.
  - destruct v; try discriminate. cbn. destruct (parse_int 16 s); [|discriminate].
    now intros [= <-].
  - unfold vector at 1. intros H.
    apply bind_ok in H as (groups & _ & H). apply bind_ok in H as (l & _ & [= <-]).
    reflexivity.
  - unfold node at 1. intros H. apply bind_ok in H as (m & _ & H).
    destruct m as [|m0 [|m1 [|m2 [|m3 [|? ?]]]]]; try discriminate.
    apply bind_ok in H as (x & _ & H). apply bind_ok in H as (y & _ & [= <-]).
    reflexivity.
Qed.

(** ** The lazy list converters *)

Lemma mapM_fails {A B : Type} (f : A -> result B) (l : list A) (a : A) :
  In a l -> fails (f a) -> fails (mapM f l).
Proof.
  intros Hin [e He]. induction l as [|b l IH]; [destruct Hin|].
  cbn. destruct (f b) as [y|e'] eqn:Eb; cbn; [|now exists e'].
  destruct Hin as [-> | Hin]; [congruence|].
  destruct (IH Hin) as [e'' ->]. cbn. now exists e''.
Qed.

(** X12: [intlist], [pointlist] and [nodelist] never fail on a list; the
    sequence they return yields, when read, the scalar converter's results
    in order, and reading it fails when the converter fails on an element. *)
Theorem list_converters_lazy (f : mapfn) (l : list value) :
  exists m,
    list_converter f (PList l) = Ok m /\
    elements m = mapM (scalar_converter f) l /\
    (forall rs, elements m = Ok rs ->
       Forall2 (fun a y => scalar_converter f a = Ok y) l rs) /\
    (forall a, In a l -> fails (scalar_converter f a) -> fails (elements m)).
Proof.
  exists (PMap f (PList l)).
  assert (E : elements (PMap f (PList l)) = mapM (scalar_converter f) l).
  { unfold elements. cbn [for_each].
    apply mapM_ext. intros a. destruct f; apply bind_ret. }
  repeat split.
  - destruct f; reflexivity.
  - exact E.
  - intros rs H. rewrite E in H. now apply mapM_Forall2.
  - intros a Hin Ha. rewrite E. eapply mapM_fails; eauto.
Qed.

(** ** Keys and failures of the caster *)

Lemma default_key_In (k : string) (v : value) :
  dict_get k DEFAULTS = Some v -> In k default_keys /\ v = PInt 100.
Proof.
  rewrite DEFAULTS_table. destruct (existsb (String.eqb k) default_keys) eqn:E; [|discriminate].
  intros [= <-]. split; [|reflexivity].
  apply existsb_exists in E as (k' & Hin & Heq). apply String.eqb_eq in Heq. now subst.
Qed.

Lemma cast_entry_keys (cur_type : schema) (key : string) (d : list (string * value))
  (data' : value) :
  cast_entry cur_type key (PDict d) = Ok data' ->
  exists d', data' = PDict d' /\
    (keys d' = keys d \/
     (keys d' = (keys d ++ [key])%list /\ In key default_keys /\ ~ In key (keys d))).
Proof.
  destruct (dict_get key d) as [v|] eqn:Hv.
  - assert (Hmem : dict_mem key d = true) by (unfold dict_mem; now rewrite Hv).
    rewrite (cast_entry_present _ _ _ _ Hv).
    destruct cur_type as [f | fields]; intros H;
      apply bind_ok in H as (x & _ & [= <-]);
      eexists; (split; [reflexivity|]); left; rewrite keys_dict_set; now rewrite Hmem.
  - assert (Hmem : dict_mem key d = false) by (unfold dict_mem; now rewrite Hv).
    rewrite (cast_entry_absent _ _ _ Hv).
    destruct (dict_get key DEFAULTS) as [dflt|] eqn:Hd; intros [= <-];
      eexists; (split; [reflexivity|]).
    + right. rewrite keys_dict_set, Hmem. split; [reflexivity|]. split.
      * now apply default_key_In in Hd.
      * intros Hin. apply dict_mem_In in Hin. congruence.
    + now left.
Qed.

Lemma cast_fields_keys (types : list (string * schema)) (d : list (string * value))
  (data' : value) :
  cast_fields types (PDict d) = Ok data' ->
  exists d' added,
    data' = PDict d' /\
    keys d' = (keys d ++ added)%list /\
    Forall (fun k => In k default_keys /\ In k (keys types) /\ ~ In k (keys d)) added.
Proof.
  revert d. induction types as [|[key cur_type] types IH]; intros d; cbn [cast_fields].
  - intros [= <-]. exists d, []. rewrite app_nil_r. repeat split. constructor.
  - intros H. apply bind_ok in H as (data1 & H1 & H2).
    apply cast_entry_keys in H1 as (d1 & -> & Hk1).
    apply IH in H2 as (d' & added & -> & Hk & Hadd).
    destruct Hk1 as [Hsame | (Hnew & Hdef & Hnin)].
    + exists d', added. split; [reflexivity|]. split; [now rewrite Hk, Hsame|].
      eapply Forall_impl; [|exact Hadd]. cbn. intros k (Ha & Hb & Hc).
      rewrite Hsame in Hc. tauto.
    + exists d', (key :: added). split; [reflexivity|]. split.
      * rewrite Hk, Hnew, <- app_assoc. reflexivity.
      * constructor; [cbn; tauto|].
        eapply Forall_impl; [|exact Hadd]. cbn. intros k (Ha & Hb & Hc).
        rewrite Hnew in Hc. repeat split; auto.
        intros Hin. apply Hc. apply in_or_app. now left.
Qed.

Section CastDataMore.
Variable repr : value -> string.
Variable dict_of : value -> result value.

(** X13: a successful [cast_data] keeps every key of [data] in place and
    adds only keys that have a default, are in the schema and were absent,
    after the existing ones. *)
Theorem cast_data_keys
  (types : option (list (string * schema))) (d : list (string * value)) (data' : value) :
  cast_data repr dict_of (PDict d) types = Ok data' ->
  exists d' added,
    data' = PDict d' /\
    keys d' = (keys d ++ added)%list /\
    Forall (fun k => In k default_keys /\
                     In k (keys (schema_of repr dict_of types)) /\
                     ~ In k (keys d)) added.
Proof.
  intros Hrun. unfold cast_data in Hrun.
  exact (cast_fields_keys _ _ _ Hrun).
Qed.

(** X14: with the full schema a successful [cast_data] leaves the keys of
    the document as they are: no top-level field has a default. *)
Theorem cast_data_top_level_keys (d : list (string * value)) (data' : value) :
  cast_data repr dict_of (PDict d) None = Ok data' ->
  exists d', data' = PDict d' /\ keys d' = keys d.
Proof.
  intros H. unfold cast_data, schema_of in H.
  apply cast_fields_keys in H as (d' & added & -> & Hk & Hadd).
  exists d'. split; [reflexivity|].
  destruct added as [|k added]; [now rewrite app_nil_r in Hk|].
  inversion Hadd as [|? ? (Hdef & Hin & _) _]; subst. exfalso.
  cbn in Hdef. cbn in Hin.
  repeat (destruct Hdef as [<- | Hdef];
          [repeat (destruct Hin as [Hin | Hin]; [discriminate Hin|]); exact Hin|]).
  exact Hdef.
Qed.

(** X15: when the converter of a present field fails, or the cast of the
    records under a present sub-schema field fails, the whole [cast_data]
    fails. *)
Theorem cast_data_failure
  (types : list (string * schema)) (d : list (string * value))
  (key : string) (cur_type : schema) (v : value)
  (Hschema : In (key, cur_type) types)
  (Hnodup : NoDup (keys types))
  (Hpresent : dict_get key d = Some v)
  (Hfail : match cur_type with
           | Conv f => fails (f v)
           | Sub fields =>
               fails (for_each v (fun cur_data =>
                                    cast_data repr dict_of cur_data (Some fields)))
           end) :
  fails (cast_data repr dict_of (PDict d) (Some types)).
Proof.
  destruct (cast_data repr dict_of (PDict d) (Some types)) as [data'|e] eqn:Hrun;
    [|now exists e].
  exfalso. unfold cast_data, schema_of in Hrun.
  destruct (cast_fields_entry _ _ _ _ _ Hnodup Hschema Hrun)
    as (d1 & d2 & d' & -> & Hstep & Hd1 & Hd2).
  rewrite Hpresent in Hd1. rewrite (cast_entry_present _ _ _ _ Hd1) in Hstep.
  destruct cur_type as [f | fields]; destruct Hfail as [e He];
    apply bind_ok in Hstep as (x & Hx & _).
  - congruence.
  - change (for_each v (cast_fields fields) = Err e) in He. congruence.
Qed.

(** X16: when no key of the schema is in [data] or has a default,
    [cast_data] succeeds and leaves [data] unchanged. *)
Theorem cast_data_unknown_fields
  (types : option (list (string * schema))) (d : list (string * value)) :
  Forall (fun k => dict_get k d = None /\ dict_get k DEFAULTS = None)
         (keys (schema_of repr dict_of types)) ->
  cast_data repr dict_of (PDict d) types = Ok (PDict d).
Proof.
  unfold cast_data. generalize (schema_of repr dict_of types) as fields.
  induction fields as [|[key cur_type] fields IH]; cbn [cast_fields keys map fst];
    intros H; [reflexivity|].
  inversion H as [|? ? [Hd Hdef] Hrest]; subst. cbn [fst] in *.
  rewrite (cast_entry_absent _ _ _ Hd), Hdef. cbn [bind]. now apply IH.
Qed.
End CastDataMore.

(** ** Metrics that are always present *)

Lemma cast_fields_int_default (fields : list (string * schema)) (r : list (string * value))
  (key : string) (m' : value) :
  NoDup (keys fields) -> In (key, Conv py_int) fields -> In key default_keys ->
  cast_fields fields (PDict r) = Ok m' ->
  exists r' z, m' = PDict r' /\ dict_get key r' = Some (PInt z).
Proof.
  intros Hnd Hin Hdef Hrun.
  destruct (dict_get key r) as [v|] eqn:Hv.
  - destruct (cast_fields_entry _ _ _ _ _ Hnd Hin Hrun)
      as (d1 & d2 & r' & -> & Hstep & Hd1 & Hd2).
    rewrite Hv in Hd1. rewrite (cast_entry_present _ _ _ _ Hd1) in Hstep.
    apply bind_ok in Hstep as (v' & Hv' & [= <-]).
    unfold py_int in Hv'. apply bind_ok in Hv' as (z & _ & [= <-]).
    exists r', z. split; [reflexivity|]. rewrite Hd2. apply dict_get_set_same.
  - destruct (cast_fields_absent _ _ _ _ _ Hin Hnd Hv Hrun) as (r' & -> & Hr').
    exists r', 100. split; [reflexivity|]. rewrite Hr', DEFAULTS_table.
    assert (E : existsb (String.eqb key) default_keys = true).
    { apply existsb_exists. exists key. split; [assumption | apply String.eqb_refl]. }
    now rewrite E.
Qed.

Section Metrics.
Variable repr : value -> string.
Variable dict_of : value -> result value.

Lemma cast_data_records (doc : list (string * value)) (doc' : value)
  (key : string) (recs : list value) :
  In (key, Sub (sub_schema key (get_type_structure repr dict_of)))
     (get_type_structure repr dict_of) ->
  dict_get key doc = Some (PList recs) ->
  cast_data repr dict_of (PDict doc) None = Ok doc' ->
  exists d' recs',
    doc' = PDict d' /\ dict_get key d' = Some (PList recs') /\
    Forall2 (fun m m' => cast_fields (sub_schema key (get_type_structure repr dict_of)) m
                         = Ok m') recs recs'.
Proof.
  intros Hin Hkey Hrun. unfold cast_data, schema_of in Hrun.
  assert (Hnd : NoDup (keys (get_type_structure repr dict_of))).
  { apply nodupb_NoDup. vm_compute. reflexivity. }
  destruct (cast_fields_entry _ _ _ _ _ Hnd Hin Hrun)
    as (d1 & d2 & d' & -> & Hstep & Hd1 & Hd2).
  rewrite Hkey in Hd1. rewrite (cast_entry_present _ _ _ _ Hd1) in Hstep.
  apply bind_ok in Hstep as (recs' & Hrecs & [= <-]).
  exists d', recs'. split; [reflexivity|]. split.
  - rewrite Hd2. apply dict_get_set_same.
  - cbn [for_each] in Hrecs. now apply mapM_Forall2 in Hrecs.
Qed.

(** X17: after a successful [cast_data] with the full schema every dict
    record of [fontMaster] has int [weightValue] and [widthValue], and every
    dict record of [instances] has int [interpolationWeight] and
    [interpolationWidth], whether or not it had them before. *)
Theorem cast_data_metrics_present (doc : list (string * value)) (doc' : value) :
  cast_data repr dict_of (PDict doc) None = Ok doc' ->
  exists d',
    doc' = PDict d' /\
    (forall masters, dict_get "fontMaster" doc = Some (PList masters) ->
       exists masters',
         dict_get "fontMaster" d' = Some (PList masters') /\
         Forall2 (fun m m' =>
                    forall r, m = PDict r ->
                      exists r' weight width,
                        m' = PDict r' /\
                        dict_get "weightValue" r' = Some (PInt weight) /\
                        dict_get "widthValue" r' = Some (PInt width))
                 masters masters') /\
    (forall instances, dict_get "instances" doc = Some (PList instances) ->
       exists instances',
         dict_get "instances" d' = Some (PList instances') /\
         Forall2 (fun m m' =>
                    forall r, m = PDict r ->
                      exists r' weight width,
                        m' = PDict r' /\
                        dict_get "interpolationWeight" r' = Some (PInt weight) /\
                        dict_get "interpolationWidth" r' = Some (PInt width))
                 instances instances').
Proof.
  intros Hrun.
  pose proof Hrun as Hfr. unfold cast_data in Hfr.
  apply cast_fields_frame in Hfr as (d' & -> & _).
  exists d'. split; [reflexivity|]. split.
  - intros masters Hm.
    destruct (cast_data_records doc (PDict d') "fontMaster" masters) as
      (d0 & masters' & [= <-] & Hget & HF); auto.
    { apply dict_get_In. reflexivity. }
    exists masters'. split; [assumption|].
    eapply Forall2_impl; [|exact HF]. intros m m' Hcast r ->.
    set (fm := sub_schema "fontMaster" (get_type_structure repr dict_of)) in *.
    assert (Hnd : NoDup (keys fm)) by (apply nodupb_NoDup; vm_compute; reflexivity).
    destruct (cast_fields_int_default fm r "weightValue" m' Hnd) as (r1 & w1 & -> & H1); auto.
    { apply dict_get_In. reflexivity. }
    { cbn. tauto. }
    destruct (cast_fields_int_default fm r "widthValue" (PDict r1) Hnd)
      as (r2 & w2 & [= <-] & H2); auto.
    { apply dict_get_In. reflexivity. }
    { cbn. tauto. }
    exists r1, w1, w2. auto.
  - intros instances Hi.
    destruct (cast_data_records doc (PDict d') "instances" instances) as
      (d0 & instances' & [= <-] & Hget & HF); auto.
    { apply dict_get_In. reflexivity. }
    exists instances'. split; [assumption|].
    eapply Forall2_impl; [|exact HF]. intros m m' Hcast r ->.
    set (fi := sub_schema "instances" (get_type_structure repr dict_of)) in *.
    assert (Hnd : NoDup (keys fi)) by (apply nodupb_NoDup; vm_compute; reflexivity).
    destruct (cast_fields_int_default fi r "interpolationWeight" m' Hnd)
      as (r1 & w1 & -> & H1); auto.
    { apply dict_get_In. reflexivity. }
    { cbn. tauto. }
    destruct (cast_fields_int_default fi r "interpolationWidth" (PDict r1) Hnd)
      as (r2 & w2 & [= <-] & H2); auto.
    { apply dict_get_In. reflexivity. }
    { cbn. tauto. }
    exists r1, w1, w2. auto.
Qed.
End Metrics.

Lemma mapM_same {A : Type} (f : A -> result A) (l : list A) :
  Forall (fun a => f a = Ok a) l -> mapM f l = Ok l.
Proof.
  induction 1 as [|a l Ha _ IH]; cbn; [reflexivity|]. now rewrite Ha, IH.
Qed.

(** ** Custom parameters under the schema *)

Section CustomParameters.
Variable repr : value -> string.
Variable dict_of : value -> result value.

Lemma cast_named_entry (p : value) :
  named_entry p ->
  cast_fields [("name", Conv (py_str repr)); ("value", Conv default)] p = Ok p.
Proof.
  intros (e & -> & Hname). cbn [cast_fields].
  assert (H1 : cast_entry (Conv (py_str repr)) "name" (PDict e) = Ok (PDict e)).
  { destruct (dict_get "name" e) as [v|] eqn:Hv.
    - rewrite (cast_entry_present _ _ _ _ Hv).
      destruct (Hname v eq_refl) as [s ->]. cbn [py_str bind].
      now rewrite dict_set_same.
    - now rewrite (cast_entry_absent _ _ _ Hv). }
  rewrite H1. cbn [bind].
  destruct (dict_get "value" e) as [v|] eqn:Hv.
  - rewrite (cast_entry_present _ _ _ _ Hv). cbn [default bind].
    now rewrite dict_set_same.
  - now rewrite (cast_entry_absent _ _ _ Hv).
Qed.

(** X22: the schema does not touch custom parameters: after a successful
    [cast_data] with the full schema, a [customParameters] list whose
    entries are dicts with string names is the list it was, so
    [cast_custom_data] finds the values as the parser left them. *)
Theorem cast_data_custom_parameters (doc : list (string * value)) (doc' : value)
  (params : list value) :
  dict_get "customParameters" doc = Some (PList params) ->
  Forall named_entry params ->
  cast_data repr dict_of (PDict doc) None = Ok doc' ->
  exists d', doc' = PDict d' /\ dict_get "customParameters" d' = Some (PList params).
Proof.
  intros Hparams Hall Hrun. unfold cast_data, schema_of in Hrun.
  assert (Hnd : NoDup (keys (get_type_structure repr dict_of))).
  { apply nodupb_NoDup. vm_compute. reflexivity. }
  assert (Hin : In ("customParameters", custom_parameters repr)
                   (get_type_structure repr dict_of)).
  { apply dict_get_In. reflexivity. }
  destruct (cast_fields_entry _ _ _ _ _ Hnd Hin Hrun)
    as (d1 & d2 & d' & -> & Hstep & Hd1 & Hd2).
  exists d'. split; [reflexivity|].
  rewrite Hparams in Hd1. unfold custom_parameters in Hstep.
  rewrite (cast_entry_present _ _ _ _ Hd1) in Hstep.
  cbn [for_each] in Hstep. rewrite mapM_same in Hstep.
  - cbn [bind with_records] in Hstep. injection Hstep as <-.
    rewrite Hd2. apply dict_get_set_same.
  - eapply Forall_impl; [|exact Hall]. intros p. apply cast_named_entry.
Qed.
End CustomParameters.

(** ** Custom parameters: what stays, what fails *)

(** X19: when no entry of [customParameters] is named [openTypeOS2Type],
    [cast_custom_data] leaves [data] unchanged. *)
Theorem cast_custom_data_no_os2_type (d : list (string * value)) (params : list value) :
  dict_get "customParameters" d = Some (PList params) ->
  Forall (fun p => exists e name,
                     p = PDict e /\ dict_get "name" e = Some name /\
                     is_str os2_type name = false) params ->
  cast_custom_data (PDict d) = Ok (PDict d).
Proof.
  intros Hparams Hall. unfold cast_custom_data. cbn [getitem]. rewrite Hparams.
  cbn [bind for_each]. rewrite mapM_same.
  - cbn [bind with_records setitem]. now rewrite dict_set_same.
  - eapply Forall_impl; [|exact Hall]. intros p (e & name & -> & Hname & Hno).
    unfold cast_custom_param. cbn [getitem]. rewrite Hname. cbn [bind].
    fold os2_type. now rewrite Hno.
Qed.

(** X20: a successful [cast_custom_data] keeps the keys of [data] and the
    value at every key other than [customParameters]. *)
Theorem cast_custom_data_frame (data data' : value) :
  cast_custom_data data = Ok data' ->
  exists d d',
    data = PDict d /\ data' = PDict d' /\
    keys d' = keys d /\
    forall k, k <> "customParameters" -> dict_get k d' = dict_get k d.
Proof.
  unfold cast_custom_data. intros H.
  apply bind_ok in H as (params & Hp & H).
  apply bind_ok in H as (params' & _ & H).
  destruct data; try discriminate. cbn [setitem] in H. injection H as <-.
  exists d, (dict_set "customParameters" (with_records params params') d).
  repeat split.
  - rewrite keys_dict_set. cbn [getitem] in Hp.
    unfold dict_mem. destruct (dict_get "customParameters" d); [reflexivity | discriminate].
  - intros k Hk. now apply dict_get_set_other.
Qed.

(** X21: [cast_custom_data] raises [KeyError] on a dict without
    [customParameters], and fails when some entry of the list is a dict
    without [name]. *)
Theorem cast_custom_data_errors (d : list (string * value)) :
  (dict_get "customParameters" d = None -> cast_custom_data (PDict d) = Err KeyError) /\
  (forall params e,
     dict_get "customParameters" d = Some (PList params) ->
     In (PDict e) params -> dict_get "name" e = None ->
     fails (cast_custom_data (PDict d))).
Proof.
  split.
  - intros H. unfold cast_custom_data. cbn [getitem]. now rewrite H.
  - intros params e Hp Hin Hname. unfold cast_custom_data. cbn [getitem].
    rewrite Hp. cbn [bind for_each].
    destruct (mapM_fails cast_custom_param params (PDict e) Hin) as [err ->].
    + exists KeyError. unfold cast_custom_param. cbn [getitem]. now rewrite Hname.
    + now exists err.
Qed.

(** ** The order of the schema entries *)

Lemma cast_entry_value (cur_type : schema) (key : string) (d d' : list (string * value)) :
  cast_entry cur_type key (PDict d) = Ok (PDict d') ->
  entry_value cur_type key (dict_get key d) = Ok (dict_get key d').
Proof.
  destruct (dict_get key d) as [v|] eqn:Hv; cbn [entry_value].
  - rewrite (cast_entry_present _ _ _ _ Hv).
    destruct cur_type as [f | fields]; intros H;
      apply bind_ok in H as (x & -> & [= <-]); cbn [bind];
      now rewrite dict_get_set_same.
  - rewrite (cast_entry_absent _ _ _ Hv).
    destruct (dict_get key DEFAULTS) as [dflt|]; intros [= <-].
    + now rewrite dict_get_set_same.
    + now rewrite Hv.
Qed.

Lemma entry_value_cast (cur_type : schema) (key : string) (d : list (string * value))
  (o : option value) :
  entry_value cur_type key (dict_get key d) = Ok o ->
  exists d', cast_entry cur_type key (PDict d) = Ok (PDict d').
Proof.
  destruct (dict_get key d) as [v|] eqn:Hv; cbn [entry_value].
  - rewrite (cast_entry_present _ _ _ _ Hv).
    destruct cur_type as [f | fields]; intros H;
      apply bind_ok in H as (x & -> & _); cbn [bind]; eauto.
  - intros _. rewrite (cast_entry_absent _ _ _ Hv). eauto.
Qed.

Lemma cast_fields_values (types : list (string * schema)) (d d' : list (string * value)) :
  NoDup (keys types) ->
  cast_fields types (PDict d) = Ok (PDict d') ->
  forall key cur_type, In (key, cur_type) types ->
    entry_value cur_type key (dict_get key d) = Ok (dict_get key d').
Proof.
  intros Hnd Hrun key cur_type Hin.
  destruct (cast_fields_entry _ _ _ _ _ Hnd Hin Hrun)
    as (d1 & d2 & d0 & [= <-] & Hstep & Hd1 & Hd2).
  apply cast_entry_value in Hstep. now rewrite Hd1, <- Hd2 in Hstep.
Qed.

Lemma cast_fields_succeeds (types : list (string * schema)) (d : list (string * value)) :
  NoDup (keys types) ->
  (forall key cur_type, In (key, cur_type) types ->
     exists o, entry_value cur_type key (dict_get key d) = Ok o) ->
  exists d', cast_fields types (PDict d) = Ok (PDict d').
Proof.
  revert d. induction types as [|[key cur_type] types IH]; intros d Hnd Hall;
    cbn [cast_fields]; [eauto|].
  cbn in Hnd. inversion Hnd as [|? ? Hk Hnd']; subst.
  destruct (Hall key cur_type (or_introl eq_refl)) as [o Ho].
  apply entry_value_cast in Ho as [d1 Hstep]. rewrite Hstep. cbn [bind].
  apply IH; [assumption|].
  intros k t Hin.
  apply cast_entry_frame in Hstep as (d1' & [= <-] & Hframe).
  rewrite Hframe.
  - apply Hall. now right.
  - intros ->. apply Hk. now apply (in_map fst) in Hin.
Qed.

Section Order.
Variable repr : value -> string.
Variable dict_of : value -> result value.

(** X18: the order of the schema entries does not matter: with the entries
    permuted, [cast_data] succeeds when it did and leaves the same value at
    every key. *)
Theorem cast_data_order_independent
  (types1 types2 : list (string * schema)) (d d1 : list (string * value)) :
  Permutation types1 types2 ->
  NoDup (keys types1) ->
  cast_data repr dict_of (PDict d) (Some types1) = Ok (PDict d1) ->
  exists d2,
    cast_data repr dict_of (PDict d) (Some types2) = Ok (PDict d2) /\
    forall k, dict_get k d2 = dict_get k d1.
Proof.
  intros Hperm Hnd1 Hrun1. unfold cast_data, schema_of in *.
  assert (Hnd2 : NoDup (keys types2)).
  { eapply Permutation_NoDup; [|exact Hnd1]. unfold keys. now apply Permutation_map. }
  pose proof (cast_fields_values _ _ _ Hnd1 Hrun1) as Hval1.
  destruct (cast_fields_succeeds types2 d Hnd2) as [d2 Hrun2].
  { intros key t Hin. eexists. apply Hval1.
    eapply Permutation_in; [|exact Hin]. now apply Permutation_sym. }
  exists d2. split; [exact Hrun2|].
  intros k.
  destruct (in_dec string_dec k (keys types1)) as [Hk | Hk].
  - apply in_map_iff in Hk as ([k' t] & <- & Hin). cbn [fst].
    pose proof (Hval1 _ _ Hin) as H1.
    pose proof (cast_fields_values _ _ _ Hnd2 Hrun2 k' t
                  (Permutation_in _ Hperm Hin)) as H2.
    congruence.
  - destruct (cast_fields_frame _ _ _ Hrun1) as (d1' & [= <-] & Hf1).
    destruct (cast_fields_frame _ _ _ Hrun2) as (d2' & [= <-] & Hf2).
    rewrite Hf1 by assumption. apply Hf2.
    intros Hin. apply Hk.
    eapply Permutation_in; [|exact Hin].
    unfold keys. apply Permutation_map. now apply Permutation_sym.
Qed.
End Order.

(** ** The value of a number *)

Lemma int_eq_float_trunc (f : spec_float) (z n : Z) :
  trunc_float f = Ok z -> float_is f n 1 -> int_eq_float z f = true.
Proof.
  destruct f as [b | b | | s m e]; cbn [trunc_float float_is int_eq_float];
    try discriminate; try tauto.
  - intros [= <-] _. reflexivity.
  - intros [= <-] [_ H]. destruct (0 <=? e) eqn:E.
    + apply Z.eqb_eq. fold (Z.mul (Z.pos m) (2 ^ e)).
      destruct s; [rewrite <- Pos2Z.opp_pos; ring | reflexivity].
    + apply Z.leb_gt in E. apply Z.eqb_eq.
      rewrite (Z.max_r e 0) in H by lia. rewrite (Z.max_l (- e) 0) in H by lia.
      rewrite Z.pow_0_r, !Z.mul_1_r in H.
      assert (Hp : 0 < 2 ^ (- e)) by (apply Z.pow_pos_nonneg; lia).
      destruct s.
      * rewrite <- Pos2Z.opp_pos in *.
        assert (Hm : Z.pos m = (- n) * 2 ^ (- e)) by lia.
        rewrite Hm, Z.div_mul by lia. lia.
      * rewrite H, Z.div_mul by lia. reflexivity.
Qed.

Lemma int_eq_float_is (f : spec_float) (z : Z) :
  int_eq_float z f = true -> float_is f z 1.
Proof.
  destruct f as [b | b | | s m e]; cbn [float_is int_eq_float]; try discriminate.
  - intros H. apply Z.eqb_eq in H. split; [lia | assumption].
  - destruct (0 <=? e) eqn:E; intros H; apply Z.eqb_eq in H; (split; [lia|]).
    + apply Z.leb_le in E. rewrite (Z.max_l e 0) by lia. rewrite (Z.max_r (- e) 0) by lia.
      rewrite Z.pow_0_r. lia.
    + apply Z.leb_gt in E. rewrite (Z.max_r e 0) by lia. rewrite (Z.max_l (- e) 0) by lia.
      rewrite Z.pow_0_r. lia.
Qed.

(** X4: [num] returns the exact value of [float(string)]: an int when that
    value is an integer, and the float itself only when no integer equals
    it. *)
Theorem num_value (v r : value) :
  num v = Ok r ->
  exists f,
    float_of v = Ok f /\
    match r with
    | PInt z => float_is f z 1
    | PFloat g => g = f /\ forall z, ~ float_is f z 1
    | _ => False
    end.
Proof.
  unfold num. intros H.
  apply bind_ok in H as (f & Hf & H). apply bind_ok in H as (z & Hz & H).
  exists f. split; [assumption|].
  destruct (int_eq_float z f) eqn:E; injection H as <-.
  - now apply int_eq_float_is.
  - split; [reflexivity|]. intros n Hn.
    rewrite (int_eq_float_trunc f z n Hz Hn) in E. discriminate.
Qed.

(** ** Instances of the properties above *)

Lemma feature_syntax_identity_witness :
  Forall (fun q => is_substring q "sub f i by f_i;" = false) escapes /\
  feature_syntax (PStr "sub f i by f_i;") = Ok (PStr "sub f i by f_i;").
Proof.
  assert (Hfree : Forall (fun q => is_substring q "sub f i by f_i;" = false) escapes).
  { repeat constructor. }
  split; [exact Hfree | exact (feature_syntax_identity _ Hfree)].
Defined.

Lemma vector_spec_witness :
  vector_form 2 "{1, 2.5}" ["1"; "2.5"] "" /\
  vector (PStr "{1, 2.5}") 2 = (l <- mapM num [PStr "1"; PStr "2.5"] ;; Ok (PList l)) /\
  ascii_string "{1,2}" /\
  (forall xs rest, ~ vector_form 2 "{1,2}" xs rest) /\
  vector (PStr "{1,2}") 2 = Err AttributeError.
Proof.
  assert (Hform : vector_form 2 "{1, 2.5}" ["1"; "2.5"] "").
  { unfold vector_form, token. cbn.
    repeat split; repeat constructor; try discriminate. }
  assert (Hascii : ascii_string "{1,2}") by reflexivity.
  assert (Hno : forall xs rest, ~ vector_form 2 "{1,2}" xs rest).
  { intros xs rest (Heq & Hlen & Hall).
    change ("{" ++ join_tokens xs ++ "}" ++ rest)
      with (String "{" (join_tokens xs ++ "}" ++ rest)) in Heq.
    injection Heq as Heq.
    assert (E : vector_split 2 "1,2}" = Some (xs, rest)).
    { rewrite Heq. apply vector_split_form; auto. }
    vm_compute in E. discriminate E. }
  split; [exact Hform|]. split.
  - exact (proj1 (vector_spec 2 "{1, 2.5}") ["1"; "2.5"] "" Hform).
  - split; [exact Hascii|]. split; [exact Hno|].
    exact (proj2 (vector_spec 2 "{1,2}") Hascii Hno).
Defined.

Lemma vector_shape_witness :
  point (PStr "{10, -20}") = Ok (PList [PInt 10; PInt (-20)]) /\
  exists l, PList [PInt 10; PInt (-20)] = PList l /\
            List.length l = 2%nat /\ Forall is_number l.
Proof.
  assert (H : point (PStr "{10, -20}") = Ok (PList [PInt 10; PInt (-20)])).
  { vm_compute. reflexivity. }
  split; [exact H | exact (vector_shape 2 _ _ H)].
Defined.

Lemma node_shape_witness :
  node (PStr "1 2 LINE") = Ok (PList [PInt 1; PInt 2; PStr "LINE"; PNone]) /\
  exists x y t sm,
    PList [PInt 1; PInt 2; PStr "LINE"; PNone] = PList [x; y; PStr t; sm] /\
    is_number x /\ is_number y /\ In t node_types /\
    (sm = PNone \/ sm = PStr "SMOOTH").
Proof.
  assert (H : node (PStr "1 2 LINE") = Ok (PList [PInt 1; PInt 2; PStr "LINE"; PNone])).
  { vm_compute. reflexivity. }
  split; [exact H | exact (node_shape _ _ H)].
Defined.

Lemma glyphs_datetime_ignores_last_token_witness :
  no_char " " "+0000" = true /\
  glyphs_datetime (PStr ("2015-06-08 08:54:28" ++ " " ++ "+0000"))
    = strptime "2015-06-08 08:54:28".
Proof.
  split; [reflexivity|].
  exact (glyphs_datetime_ignores_last_token "2015-06-08 08:54:28" "+0000" eq_refl).
Defined.

Lemma kerning_shape_witness :
  kerning (PDict [("m1", PDict [("A", PDict [("B", PStr "10"); ("C", PInt 3)])])])
    = Ok (PDict [("m1", PDict [("A", PDict [("B", PInt 10); ("C", PInt 3)])])]) /\
  exists gz : grid Z,
    PDict [("m1", PDict [("A", PDict [("B", PInt 10); ("C", PInt 3)])])]
      = grid_value PInt gz /\
    distinct_keys gz.
Proof.
  assert (H : kerning (PDict [("m1", PDict [("A", PDict [("B", PStr "10"); ("C", PInt 3)])])])
              = Ok (PDict [("m1", PDict [("A", PDict [("B", PInt 10); ("C", PInt 3)])])])).
  { vm_compute. reflexivity. }
  split; [exact H | exact (kerning_shape _ _ H)].
Defined.

Lemma kerning_idempotent_witness :
  kerning (PDict [("m1", PDict [("A", PDict [("B", PStr "10")])])])
    = Ok (PDict [("m1", PDict [("A", PDict [("B", PInt 10)])])]) /\
  kerning (PDict [("m1", PDict [("A", PDict [("B", PInt 10)])])])
    = Ok (PDict [("m1", PDict [("A", PDict [("B", PInt 10)])])]).
Proof.
  assert (H : kerning (PDict [("m1", PDict [("A", PDict [("B", PStr "10")])])])
              = Ok (PDict [("m1", PDict [("A", PDict [("B", PInt 10)])])])).
  { vm_compute. reflexivity. }
  split; [exact H | exact (kerning_idempotent _ _ H)].
Defined.

Lemma recast_stable_witness :
  truthy (PStr "1") = Ok (PBool true) /\ truthy (PBool true) = Ok (PBool true).
Proof.
  assert (H : truthy (PStr "1") = Ok (PBool true)) by reflexivity.
  split; [exact H | exact (proj1 (recast_stable (PStr "1") (PBool true)) H)].
Defined.

Lemma recast_fails_witness :
  hex_int (PStr "0041") = Ok (PInt 65) /\ hex_int (PInt 65) = Err TypeError.
Proof.
  assert (H : hex_int (PStr "0041") = Ok (PInt 65)) by reflexivity.
  split; [exact H | exact (proj1 (recast_fails (PStr "0041") (PInt 65) 0) H)].
Defined.

Lemma list_converters_lazy_witness :
  exists m,
    intlist (PList [PStr "1"; PStr "x"]) = Ok m /\ fails (elements m).
Proof.
  destruct (list_converters_lazy MapInt [PStr "1"; PStr "x"]) as (m & Hm & _ & _ & Hfail).
  exists m. split; [exact Hm|].
  apply (Hfail (PStr "x")).
  - right. left. reflexivity.
  - exists ValueError. reflexivity.
Defined.

Lemma num_value_witness :
  num (PStr "20") = Ok (PInt 20) /\
  exists f, float_of (PStr "20") = Ok f /\ float_is f 20 1.
Proof.
  assert (H : num (PStr "20") = Ok (PInt 20)) by (vm_compute; reflexivity).
  split; [exact H | exact (num_value _ _ H)].
Defined.

Lemma cast_data_keys_witness :
  cast_data repr0 dict_of0 (PDict [("id", PStr "m1")])
    (Some [("id", Conv default); ("weightValue", Conv py_int)])
    = Ok (PDict [("id", PStr "m1"); ("weightValue", PInt 100)]) /\
  exists d' added,
    PDict [("id", PStr "m1"); ("weightValue", PInt 100)] = PDict d' /\
    keys d' = (keys [("id", PStr "m1")] ++ added)%list /\
    Forall (fun k => In k default_keys /\
                     In k (keys (schema_of repr0 dict_of0
                                   (Some [("id", Conv default);
                                          ("weightValue", Conv py_int)]))) /\
                     ~ In k (keys [("id", PStr "m1")])) added.
Proof.
  assert (H : cast_data repr0 dict_of0 (PDict [("id", PStr "m1")])
                (Some [("id", Conv default); ("weightValue", Conv py_int)])
              = Ok (PDict [("id", PStr "m1"); ("weightValue", PInt 100)])) by reflexivity.
  split; [exact H | exact (cast_data_keys repr0 dict_of0 _ _ _ H)].
Defined.

Lemma cast_data_top_level_keys_witness :
  cast_data repr0 dict_of0 (PDict [("unitsPerEm", PStr "1000"); ("note", PStr "x")]) None
    = Ok (PDict [("unitsPerEm", PInt 1000); ("note", PStr "x")]) /\
  exists d',
    PDict [("unitsPerEm", PInt 1000); ("note", PStr "x")] = PDict d' /\
    keys d' = keys [("unitsPerEm", PStr "1000"); ("note", PStr "x")].
Proof.
  assert (H : cast_data repr0 dict_of0
                (PDict [("unitsPerEm", PStr "1000"); ("note", PStr "x")]) None
              = Ok (PDict [("unitsPerEm", PInt 1000); ("note", PStr "x")])).
  { vm_compute. reflexivity. }
  split; [exact H | exact (cast_data_top_level_keys repr0 dict_of0 _ _ H)].
Defined.

Lemma cast_data_failure_witness :
  fails (py_int (PStr "x")) /\
  fails (cast_data repr0 dict_of0 (PDict [("unitsPerEm", PStr "x")])
           (Some [("unitsPerEm", Conv py_int)])).
Proof.
  assert (H : fails (py_int (PStr "x"))) by (exists ValueError; reflexivity).
  split; [exact H|].
  exact (cast_data_failure repr0 dict_of0 [("unitsPerEm", Conv py_int)]
           [("unitsPerEm", PStr "x")] "unitsPerEm" (Conv py_int) (PStr "x")
           (or_introl eq_refl) (nodupb_NoDup ["unitsPerEm"] eq_refl) eq_refl H).
Defined.

Lemma cast_data_unknown_fields_witness :
  cast_data repr0 dict_of0 (PDict [("note", PStr "x")])
    (Some [("unitsPerEm", Conv py_int); ("glyphs", Sub [("glyphname", Conv default)])])
  = Ok (PDict [("note", PStr "x")]).
Proof.
  apply (cast_data_unknown_fields repr0 dict_of0).
  repeat constructor.
Defined.

Lemma cast_data_metrics_present_witness :
  cast_data repr0 dict_of0
    (PDict [("fontMaster", PList [PDict [("id", PStr "m1"); ("widthValue", PStr "80")]])])
    None
  = Ok (PDict [("fontMaster", PList [PDict [("id", PStr "m1"); ("widthValue", PInt 80);
                                            ("weightValue", PInt 100)]])]) /\
  exists masters',
    dict_get "fontMaster"
      [("fontMaster", PList [PDict [("id", PStr "m1"); ("widthValue", PInt 80);
                                    ("weightValue", PInt 100)]])]
    = Some (PList masters').
Proof.
  assert (H : cast_data repr0 dict_of0
                (PDict [("fontMaster",
                         PList [PDict [("id", PStr "m1"); ("widthValue", PStr "80")]])])
                None
              = Ok (PDict [("fontMaster",
                            PList [PDict [("id", PStr "m1"); ("widthValue", PInt 80);
                                          ("weightValue", PInt 100)]])])).
  { vm_compute. reflexivity. }
  split; [exact H|].
  destruct (cast_data_metrics_present repr0 dict_of0 _ _ H) as (d' & Hd & Hm & _).
  injection Hd as <-.
  destruct (Hm _ eq_refl) as (masters' & Hget & _).
  exists masters'. exact Hget.
Defined.

Lemma cast_data_order_independent_witness :
  exists d2,
    cast_data repr0 dict_of0 (PDict [("a", PStr "1"); ("b", PStr "0")])
      (Some [("b", Conv truthy); ("a", Conv py_int)]) = Ok (PDict d2) /\
    forall k, dict_get k d2 = dict_get k [("a", PInt 1); ("b", PBool false)].
Proof.
  apply (cast_data_order_independent repr0 dict_of0
           [("a", Conv py_int); ("b", Conv truthy)]
           [("b", Conv truthy); ("a", Conv py_int)]
           [("a", PStr "1"); ("b", PStr "0")]).
  - apply perm_swap.
  - apply (nodupb_NoDup ["a"; "b"]). reflexivity.
  - reflexivity.
Defined.

Lemma cast_custom_data_no_os2_type_witness :
  cast_custom_data
    (PDict [("customParameters", PList [PDict [("name", PStr "note"); ("value", PStr "x")]])])
  = Ok (PDict [("customParameters",
                PList [PDict [("name", PStr "note"); ("value", PStr "x")]])]).
Proof.
  apply (cast_custom_data_no_os2_type _ [PDict [("name", PStr "note"); ("value", PStr "x")]]).
  - reflexivity.
  - repeat constructor.
    exists [("name", PStr "note"); ("value", PStr "x")], (PStr "note").
    repeat split.
Defined.

Lemma cast_custom_data_frame_witness :
  exists d d',
    PDict [("familyName", PStr "T"); ("customParameters", PList [])] = PDict d /\
    PDict [("familyName", PStr "T"); ("customParameters", PList [])] = PDict d' /\
    keys d' = keys d /\
    forall k, k <> "customParameters" -> dict_get k d' = dict_get k d.
Proof.
  apply cast_custom_data_frame. reflexivity.
Defined.

Lemma cast_custom_data_errors_witness :
  cast_custom_data (PDict [("familyName", PStr "T")]) = Err KeyError.
Proof.
  apply (proj1 (cast_custom_data_errors [("familyName", PStr "T")])). reflexivity.
Defined.

Lemma cast_data_custom_parameters_witness :
  cast_data repr0 dict_of0
    (PDict [("customParameters",
             PList [PDict [("name", PStr "openTypeOS2Type"); ("value", PList [PStr "3"])]])])
    None
  = Ok (PDict [("customParameters",
                PList [PDict [("name", PStr "openTypeOS2Type");
                              ("value", PList [PStr "3"])]])]) /\
  exists d',
    PDict [("customParameters",
            PList [PDict [("name", PStr "openTypeOS2Type"); ("value", PList [PStr "3"])]])]
      = PDict d' /\
    dict_get "customParameters" d'
      = Some (PList [PDict [("name", PStr "openTypeOS2Type"); ("value", PList [PStr "3"])]]).
Proof.
  assert (H : cast_data repr0 dict_of0
                (PDict [("customParameters",
                         PList [PDict [("name", PStr "openTypeOS2Type");
                                       ("value", PList [PStr "3"])]])])
                None
              = Ok (PDict [("customParameters",
                            PList [PDict [("name", PStr "openTypeOS2Type");
                                          ("value", PList [PStr "3"])]])])).
  { vm_compute. reflexivity. }
  split; [exact H|].
  apply (cast_data_custom_parameters repr0 dict_of0
           [("customParameters",
             PList [PDict [("name", PStr "openTypeOS2Type"); ("value", PList [PStr "3"])]])]
           _
           [PDict [("name", PStr "openTypeOS2Type"); ("value", PList [PStr "3"])]]
           eq_refl); [|exact H].
  repeat constructor.
  exists [("name", PStr "openTypeOS2Type"); ("value", PList [PStr "3"])].
  split; [reflexivity|]. intros v [= <-]. eauto.
Defined.
